(** * dochtml: rendering of Go package documentation into HTML

    A shallow embedding of [internal/etl/dochtml/dochtml.go]: the example
    indexer ([exampleID], [collectExamples]), the size-bounded sink, the
    [htmlPackage] template and the [Render] entry point, followed by the
    properties the specification states about them. *)

From Stdlib Require Import String Ascii ZArith List Lia.
From Stdlib Require Import Sorting.Sorted Sorting.Permutation Structures.OrdersEx.
From stdpp Require Import base option list gmap strings.

Local Open Scope string_scope.
Local Open Scope Z_scope.
Local Open Scope list_scope.

(** ** Go values *)

(** A Go function either returns or panics. *)
Inductive outcome (A : Type) : Type :=
| Return (a : A)
| Panic (msg : string).
Arguments Return {A} a.
Arguments Panic {A} msg.

#[global] Instance outcome_ret : MRet outcome := @Return.
#[global] Instance outcome_bind : MBind outcome := fun A B f m =>
  match m with
  | Return a => f a
  | Panic msg => Panic msg
  end.

(** [for _, x := range l { s = body x s }], leaving at the first panic. *)
Fixpoint range_ {A S : Type} (l : list A) (body : A → S → outcome S) (s : S)
  : outcome S :=
  match l with
  | [] => Return s
  | x :: l' => s' ← body x s; range_ l' body s'
  end.

(** Go compares strings byte by byte: [a < b]. *)
Definition string_less (a b : string) : bool := String.ltb a b.

(** [s != ""] *)
Definition nonempty (s : string) : bool := negb (String.eqb s "").

(** ** package sort *)

Module sort.
Section Stable.
Context {A : Type} (less : A → A → bool).

  (** The inner loop of [insertionSort]: [data[j]] moves left while
      [less(j, j-1)].  The prefix already sorted is held from right to left. *)
Fixpoint sift (x : A) (rprefix : list A) : list A :=
    match rprefix with
    | [] => [x]
    | y :: r => if less x y then y :: sift x r else x :: y :: r
    end.

Definition insertionSort (data : list A) : list A :=
    rev (fold_left (fun acc x => sift x acc) data []).

  (** [sort.SliceStable(x, less)]: sorts while keeping equal elements in
      their original order.  The library sorts runs by insertion and merges
      them without reordering equal elements; lemma [stable_sort_unique]
      below shows that this contract leaves one possible result, the one
      insertion sort computes. *)
Definition SliceStable (x : list A) : list A := insertionSort x.
End Stable.
End sort.

(** ** package go/ast and the package model of internal/doc *)

Module ast.
  (** Syntax-tree nodes are only handed to the rendering hooks: a node is
      known by its address. *)
Definition Node : Type := positive.
Definition CommentGroup : Type := positive.
End ast.

Module token.
Definition FileSet : Type := positive.
End token.

Module doc.
Module Example.
Record t : Type := mk {
      Name : string;
      Suffix : string;
      Doc : string;
      Code : ast.Node;
      Comments : list ast.CommentGroup;
      Output : string;
      Unordered : bool;
      EmptyOutput : bool
    }.
End Example.

Module Note.
Record t : Type := mk { UID : string; Body : string }.
End Note.

Module Value.
Record t : Type := mk { Doc : string; Names : list string; Decl : ast.Node }.
End Value.

Module Func.
Record t : Type := mk {
      Doc : string;
      Name : string;
      Decl : ast.Node;
      Recv : string;
      Examples : list Example.t
    }.
End Func.

Module Type_.
Record t : Type := mk {
      Doc : string;
      Name : string;
      Decl : ast.Node;
      Consts : list Value.t;
      Vars : list Value.t;
      Funcs : list Func.t;
      Methods : list Func.t;
      Examples : list Example.t
    }.
End Type_.

Module Package.
Record t : Type := mk {
      Doc : string;
      Name : string;
      ImportPath : string;
      Notes : gmap string (list Note.t);
      Consts : list Value.t;
      Types : list Type_.t;
      Vars : list Value.t;
      Funcs : list Func.t;
      Examples : list Example.t
    }.
End Package.
End doc.

(** ** Examples *)

(** [example] is an internal representation of a single example. *)
Module example.
Record t : Type := mk {
    Example : doc.Example.t;
    ID : string;
    ParentID : string;
    Suffix : string
  }.
End example.

(** [examples] is an internal representation of all package examples. *)
Module examples.
Record t : Type := mk {
    List : list example.t;
    Map : gmap string (list example.t)
  }.
End examples.

Definition exampleID (id suffix : string) : outcome string :=
  if String.eqb id "" && String.eqb suffix "" then
    Return "example-package"
  else if String.eqb id "" && negb (String.eqb suffix "") then
    Return ("example-package-" +:+ suffix)
  else if negb (String.eqb id "") && String.eqb suffix "" then
    Return ("example-" +:+ id)
  else if negb (String.eqb id "") && negb (String.eqb suffix "") then
    Return ("example-" +:+ id +:+ "-" +:+ suffix)
  else
    Panic "unreachable".

(** [m[id]]: a key that is absent reads as the nil slice. *)
Definition index {V : Type} (m : gmap string (list V)) (id : string) : list V :=
  default [] (m !! id).

(** The body shared by the five loops of [collectExamples]. *)
Definition appendExample (id : string) (ex : doc.Example.t) (exs : examples.t)
  : outcome examples.t :=
  i ← exampleID id (doc.Example.Suffix ex);
  let ex := example.mk ex i id (doc.Example.Suffix ex) in
  mret (examples.mk (examples.List exs ++ [ex])
                    (<[id := index (examples.Map exs) id ++ [ex]]> (examples.Map exs))).

(** The five loops of [collectExamples]: the examples in the order in which
    they are found. *)
Definition discoverExamples (p : doc.Package.t) : outcome examples.t :=
  let exs := examples.mk [] ∅ in
  exs ← range_ (doc.Package.Examples p) (fun ex exs => appendExample "" ex exs) exs;
  exs ← range_ (doc.Package.Funcs p) (fun f exs =>
    range_ (doc.Func.Examples f) (fun ex exs =>
      appendExample (doc.Func.Name f) ex exs) exs) exs;
  range_ (doc.Package.Types p) (fun t exs =>
    exs ← range_ (doc.Type_.Examples t) (fun ex exs =>
      appendExample (doc.Type_.Name t) ex exs) exs;
    exs ← range_ (doc.Type_.Funcs t) (fun f exs =>
      range_ (doc.Func.Examples f) (fun ex exs =>
        appendExample (doc.Func.Name f) ex exs) exs) exs;
    range_ (doc.Type_.Methods t) (fun m exs =>
      range_ (doc.Func.Examples m) (fun ex exs =>
        appendExample (doc.Type_.Name t +:+ "." +:+ doc.Func.Name m) ex exs) exs) exs) exs.

(** The comparison handed to [sort.SliceStable]. *)
Definition lessParentID (a b : example.t) : bool :=
  string_less (example.ParentID a) (example.ParentID b).

(** [collectExamples] extracts examples from [p] into the internal examples
    representation. *)
Definition collectExamples (p : doc.Package.t) : outcome examples.t :=
  exs ← discoverExamples p;
  mret (examples.mk (sort.SliceStable lessParentID (examples.List exs))
                    (examples.Map exs)).

(** The method [Code]: the example's code with its comments attached when
    there are any, otherwise the code as is. *)
Module printer.
Inductive CommentedNode : Type :=
| Commented (node : ast.Node) (comments : list ast.CommentGroup)
| Plain (node : ast.Node).
End printer.

Definition Code (ex : example.t) : printer.CommentedNode :=
  let e := example.Example ex in
  if (0 <? length (doc.Example.Comments e))%nat then
    printer.Commented (doc.Example.Code e) (doc.Example.Comments e)
  else
    printer.Plain (doc.Example.Code e).

(** ** Errors *)

(** An error value: [errorString] is what [errors.New] and [fmt.Errorf]
    with [%v] build, [wrapError] what [xerrors.Errorf] builds with [%w]. *)
Inductive error : Type :=
| errorString (s : string)
| wrapError (msg : string) (err : error).

#[global] Instance error_eq_dec : EqDecision error.
Proof. solve_decision. Defined.

(** The method [Error]. *)
Definition Error (e : error) : string :=
  match e with
  | errorString s => s
  | wrapError msg _ => msg
  end.

(** [errors.Is]: [target] is [e] or is in the chain [e] wraps. *)
Fixpoint Is (e target : error) : bool :=
  bool_decide (e = target) ||
  match e with
  | errorString _ => false
  | wrapError _ err => Is err target
  end.

(** [ErrTooLarge] represents an error where the rendered documentation HTML
    size exceeded the specified limit. *)
Definition ErrTooLarge : error :=
  errorString "rendered documentation HTML size exceeded the specified limit".

Module xerrors.
(** [xerrors.Errorf(prefix + "%w", err)] *)
Definition Errorf_w (prefix : string) (err : error) : error :=
  wrapError (prefix +:+ Error err) err.
End xerrors.

Module fmt.
(** [fmt.Errorf(prefix + "%v", err)] *)
Definition Errorf_v (prefix : string) (err : error) : error :=
  errorString (prefix +:+ Error err).
End fmt.

(** A call that the template engine makes for the template: a panic of the
    function called is recovered and ends the execution with an error.  The
    engine reports that error with the place of the call in front of its
    text; the error is kept here as the function gave it. *)
Definition called (A : Type) : Type := error + A.

(** ** The bounded sink *)

(** An [int64] keeps the low 64 bits of a result, read as a signed number. *)
Definition int64 (z : Z) : Z := (z + 2 ^ 63) mod 2 ^ 64 - 2 ^ 63.

Module limitBuffer.
(** Modelled from the spec: the type [limitBuffer] is declared in another
    file of the package; [Render] shows its fields, [B] and [Remain]. *)
Record t : Type := mk {
  B : string;
  Remain : Z
}.

(** Modelled from the spec: the method [Write] of [limitBuffer], which
    always succeeds, appends to the underlying buffer and decrements
    [Remain] by the number of bytes, whatever its sign. *)
Definition Write (l : t) (p : string) : t :=
  mk (B l +:+ p) (int64 (Remain l - Z.of_nat (String.length p))).
End limitBuffer.

(** ** The template engine *)

(** What the execution of a part of a template does: the pieces it hands to
    the writer, in order, and the error it stops with, if any. *)
Definition frag : Type := list string * option error.

Definition text (s : string) : frag := ([s], None).

Definition nothing : frag := ([], None).

Definition seq (f g : frag) : frag :=
  match f with
  | (o, None) => (o ++ g.1, g.2)
  | (o, Some e) => (o, Some e)
  end.

Notation "f >>> g" := (seq f g) (at level 61, left associativity).

(** An action that prints the result of a call. *)
Definition emit (r : called string) : frag :=
  match r with
  | inl e => ([], Some e)
  | inr s => text s
  end.

(** An action that binds the result of a call to a variable. *)
Definition assign {A : Type} (r : called A) (k : A → frag) : frag :=
  match r with
  | inl e => ([], Some e)
  | inr a => k a
  end.

(** [{{if c}} f {{end}}] *)
Definition if_ (c : bool) (f : frag) : frag := if c then f else nothing.

(** [{{range l}} body {{end}}] *)
Definition range {A : Type} (l : list A) (body : A → frag) : frag :=
  fold_right (fun x rest => body x >>> rest) nothing l.

(** [{{range $k, $v := m}} body {{end}}]: the keys of a map are visited in
    sorted order. *)
Definition rangeMap {V : Type} (m : gmap string V) (body : string → V → frag)
  : frag :=
  range (sort.SliceStable (fun a b => string_less a.1 b.1) (map_to_list m))
        (fun kv => body kv.1 kv.2).

(** [Execute]: every piece goes through the writer. *)
Definition Execute (f : frag) (wr : limitBuffer.t) : limitBuffer.t * option error :=
  (fold_left limitBuffer.Write f.1 wr, f.2).

Module template.
(** The escaping that html/template adds to an action, by the place of the
    action: in text, in a quoted attribute, in the query or fragment of a
    URL.  Values of type [template.HTML] are left as they are in text. *)
Record Escapers : Type := mk {
  htmlescaper : string → string;
  attrescaper : string → string;
  urlescaper : string → string
}.
End template.

Module render.
(** The result of [DeclHTML]. *)
Record Decl : Type := mkDecl { DeclDoc : string; DeclDecl : string }.

(** The hooks of the Renderer collaborator. *)
Record Renderer : Type := mk {
  Synopsis : ast.Node → called string;
  DocHTML : string → called string;
  DeclHTML : string → ast.Node → called Decl;
  CodeHTML : printer.CommentedNode → called string
}.
End render.

(** Bytes that a string literal cannot hold. *)
Definition dquote : ascii := ascii_of_nat 34.
Definition nl : string := String (ascii_of_nat 10) "".
Definition tab : string := String (ascii_of_nat 9) "".

(** The text of the template is written here with ['] where the source has
    a double quote; [lit] puts the double quotes back. *)
Fixpoint lit (s : string) : string :=
  match s with
  | EmptyString => EmptyString
  | String c s' => String (if Ascii.eqb c "'" then dquote else c) (lit s')
  end.

(** Truth of a value in a template: a string or a slice is true when it is
    not empty. *)
Definition any {A : Type} (l : list A) : bool :=
  match l with [] => false | _ :: _ => true end.

(** The template function [ternary]: [b] when [q] is the zero value of its
    type, otherwise [a]. *)
Definition ternary {A : Type} (q : bool) (a b : A) : A := if q then a else b.

(** The data the template is executed on. *)
Module data.
Record t : Type := mk {
  RootURL : string;
  Package : doc.Package.t;
  Examples : examples.t
}.
End data.

(** ** The template [htmlPackage] *)

Section htmlPackage.
Variable esc : template.Escapers.
Variable r : render.Renderer.
Variable source_link : string → ast.Node → called string.

(** An action in text. *)
Definition html (s : string) : frag := text (template.htmlescaper esc s).
(** An action in a quoted attribute. *)
Definition attr (s : string) : frag := text (template.attrescaper esc s).
(** An action in the fragment of a quoted [href]. *)
Definition href (s : string) : frag :=
  text (template.attrescaper esc (template.urlescaper esc s)).

(** [{{with .Suffix}} ({{.}}){{end}}] *)
Definition withSuffix (suffix : string) : frag :=
  if_ (nonempty suffix) (text " (" >>> html suffix >>> text ")").

(** [{{define "example"}}] *)
Definition templateExample (l : list example.t) : frag :=
  range l (fun ex =>
    let e := example.Example ex in
    text (lit "<details id='") >>> attr (example.ID ex) >>>
      text (lit "' class='example'>") >>> html nl >>>
    text (lit "<summary class='example-header'>Example") >>>
      withSuffix (example.Suffix ex) >>>
      text (lit " <a href='#") >>> href (example.ID ex) >>>
      text (lit "'>¶</a></summary>") >>> html nl >>>
    text (lit "<div class='example-body'>") >>> html nl >>>
    if_ (nonempty (doc.Example.Doc e))
      (emit (render.DocHTML r (doc.Example.Doc e)) >>> html nl) >>>
    text "<p>Code:</p>" >>> html nl >>>
    emit (render.CodeHTML r (Code ex)) >>> html nl >>>
    if_ (nonempty (doc.Example.Output e) || doc.Example.EmptyOutput e)
      (text "<p>" >>>
         html (ternary (doc.Example.Unordered e) "Unordered output:" "Output:") >>>
         text "</p>" >>> html nl >>>
       text "<pre>" >>> html nl >>> html (doc.Example.Output e) >>>
         text "</pre>" >>> html nl) >>>
    text "</div>" >>> html nl >>>
    text "</details>" >>> html nl >>>
    html nl).

(** [{{$out := render_decl .Doc .Decl}}{{$out.Decl}}{{$out.Doc}}{{"\n"}}] *)
Definition declaration (doc : string) (decl : ast.Node) : frag :=
  assign (render.DeclHTML r doc decl) (fun out =>
    text (render.DeclDecl out) >>> text (render.DeclDoc out) >>> html nl).

Definition values (l : list doc.Value.t) : frag :=
  range l (fun v => declaration (doc.Value.Doc v) (doc.Value.Decl v)).

(** The list at the top of the page. *)
Definition navigation (d : data.t) : frag :=
  let p := data.Package d in
  let exs := data.Examples d in
  if_ (nonempty (doc.Package.Doc p) || any (doc.Package.Consts p)
       || any (doc.Package.Vars p) || any (doc.Package.Funcs p)
       || any (doc.Package.Types p) || any (examples.List exs))
    (text "<ul>" >>> html nl >>>
     if_ (nonempty (doc.Package.Doc p) || any (index (examples.Map exs) ""))
       (text (lit "<li><a href='#pkg-overview'>Overview</a></li>") >>> html nl) >>>
     if_ (any (doc.Package.Consts p) || any (doc.Package.Vars p)
          || any (doc.Package.Funcs p) || any (doc.Package.Types p))
       (text (lit "<li><a href='#pkg-index'>Index</a></li>") >>> html nl) >>>
     if_ (any (examples.List exs))
       (text (lit "<li><a href='#pkg-examples'>Examples</a></li>") >>> html nl) >>>
     text "</ul>" >>> html nl).

(** The overview. *)
Definition overview (d : data.t) : frag :=
  let p := data.Package d in
  let exs := data.Examples d in
  if_ (nonempty (doc.Package.Doc p) || any (index (examples.Map exs) ""))
    (text (lit "<h2 id='pkg-overview'>Overview <a href='#pkg-overview'>¶</a></h2>") >>>
       html (nl +:+ nl) >>>
     emit (render.DocHTML r (doc.Package.Doc p)) >>> html nl >>>
     templateExample (index (examples.Map exs) "")).

(** An entry of the index for a function or a method, under the anchor
    [anchor]. *)
Definition indexEntry (anchor : frag) (f : doc.Func.t) : frag :=
  text (lit "<li><a href='#") >>> anchor >>> text (lit "'>") >>>
  assign (render.Synopsis r (doc.Func.Decl f)) html >>>
  text "</a></li>" >>> html nl.

(** The entries of the index. *)
Definition indexList (d : data.t) : frag :=
  let p := data.Package d in
  text (lit "<h2 id='pkg-index'>Index <a href='#pkg-index'>¶</a></h2>") >>>
    html (nl +:+ nl) >>>
  text "<ul>" >>> html nl >>>
  if_ (any (doc.Package.Consts p))
    (text (lit "<li><a href='#pkg-constants'>Constants</a></li>") >>> html nl) >>>
  if_ (any (doc.Package.Vars p))
    (text (lit "<li><a href='#pkg-variables'>Variables</a></li>") >>> html nl) >>>
  range (doc.Package.Funcs p) (fun f => indexEntry (href (doc.Func.Name f)) f) >>>
  range (doc.Package.Types p) (fun t =>
    let tname := doc.Type_.Name t in
    text (lit "<li><a href='#") >>> href tname >>> text (lit "'>type ") >>>
      html tname >>> text "</a></li>" >>> html nl >>>
    if_ (any (doc.Type_.Funcs t))
      (text "<ul>" >>> html nl >>>
       range (doc.Type_.Funcs t) (fun f => indexEntry (href (doc.Func.Name f)) f) >>>
       text (nl +:+ tab +:+ tab +:+ tab +:+ "</ul>") >>> html nl) >>>
    if_ (any (doc.Type_.Methods t))
      (text "<ul>" >>> html nl >>>
       range (doc.Type_.Methods t) (fun m =>
         indexEntry (href tname >>> text "." >>> href (doc.Func.Name m)) m) >>>
       text (nl +:+ tab +:+ tab +:+ tab +:+ "</ul>") >>> html nl)) >>>
  rangeMap (doc.Package.Notes p) (fun marker _ =>
    text (lit "<li><a href='#pkg-note-") >>> href marker >>> text (lit "'>") >>>
    html marker >>> text "s</a></li>") >>>
  text "</ul>" >>> html nl.

(** The list of the examples. *)
Definition examplesList (exs : examples.t) : frag :=
  if_ (any (examples.List exs))
    (text (lit "<h3 id='pkg-examples'>Examples <a href='#pkg-examples'>¶</a></h3>") >>>
       html nl >>>
     text "<ul>" >>> html nl >>>
     range (examples.List exs) (fun ex =>
       text (lit "<li><a href='#") >>> href (example.ID ex) >>> text (lit "'>") >>>
       html (if nonempty (example.ParentID ex) then example.ParentID ex else "Package") >>>
       withSuffix (example.Suffix ex) >>>
       text "</a></li>" >>> html nl) >>>
     text "</ul>" >>> html nl).

(** The heading of a function, a type or a method, then its declaration and
    its examples. *)
Definition heading (kind : frag) (anchor name : string) (decl : ast.Node) : frag :=
  text (lit "<h3 id='") >>> attr anchor >>> text (lit "'>") >>> kind >>>
  emit (source_link name decl) >>>
  text (lit " <a href='#") >>> href anchor >>> text (lit "'>¶</a></h3>") >>> html nl.

Definition function (exs : examples.t) (f : doc.Func.t) : frag :=
  heading (text "func ") (doc.Func.Name f) (doc.Func.Name f) (doc.Func.Decl f) >>>
  declaration (doc.Func.Doc f) (doc.Func.Decl f) >>>
  templateExample (index (examples.Map exs) (doc.Func.Name f)).

(** [printf "%s.%s"] *)
Definition printf_s_s (a b : string) : string := a +:+ "." +:+ b.

Definition method (exs : examples.t) (tname : string) (m : doc.Func.t) : frag :=
  let name := printf_s_s tname (doc.Func.Name m) in
  heading (text "func (" >>> html (doc.Func.Recv m) >>> text ") ")
          name (doc.Func.Name m) (doc.Func.Decl m) >>>
  declaration (doc.Func.Doc m) (doc.Func.Decl m) >>>
  templateExample (index (examples.Map exs) name).

(** The bodies of the declarations, in the order of the index. *)
Definition bodies (d : data.t) : frag :=
  let p := data.Package d in
  let exs := data.Examples d in
  if_ (any (doc.Package.Consts p))
    (text (lit "<h3 id='pkg-constants'>Constants <a href='#pkg-constants'>¶</a></h3>")
       >>> html nl) >>>
  values (doc.Package.Consts p) >>>
  if_ (any (doc.Package.Vars p))
    (text (lit "<h3 id='pkg-variables'>Variables <a href='#pkg-variables'>¶</a></h3>")
       >>> html nl) >>>
  values (doc.Package.Vars p) >>>
  range (doc.Package.Funcs p) (function exs) >>>
  range (doc.Package.Types p) (fun t =>
    let tname := doc.Type_.Name t in
    heading (text "type ") tname tname (doc.Type_.Decl t) >>>
    declaration (doc.Type_.Doc t) (doc.Type_.Decl t) >>>
    templateExample (index (examples.Map exs) tname) >>>
    values (doc.Type_.Consts t) >>>
    values (doc.Type_.Vars t) >>>
    range (doc.Type_.Funcs t) (function exs) >>>
    range (doc.Type_.Methods t) (method exs tname)).

(** The section of the index: its entries, the list of the examples and
    the bodies. *)
Definition indexSection (d : data.t) : frag :=
  let p := data.Package d in
  if_ (any (doc.Package.Consts p) || any (doc.Package.Vars p)
       || any (doc.Package.Funcs p) || any (doc.Package.Types p))
    (indexList d >>> examplesList (data.Examples d) >>> bodies d).

(** The notes, a section per marker. *)
Definition notes (d : data.t) : frag :=
  rangeMap (doc.Package.Notes (data.Package d)) (fun marker content =>
    text (lit "<h2 id='pkg-note-") >>> attr marker >>> text (lit "'>") >>>
      html marker >>> text (lit "s <a href='#pkg-note-") >>> href marker >>>
      text (lit "'>¶</a></h2>" +:+ nl +:+ tab
            +:+ lit "<ul style='padding-left: 20px; list-style: initial;'>") >>>
      html nl >>>
    range content (fun v =>
      text (lit "<li style='margin: 6px 0 6px 0;'>") >>>
      emit (render.DocHTML r (doc.Note.Body v)) >>> text "</li>") >>>
    text "</ul>" >>> html nl).

(** [htmlPackage] is the template used to render documentation HTML. *)
Definition htmlPackage (d : data.t) : frag :=
  html "" >>> navigation d >>> overview d >>> indexSection d >>> notes d.
End htmlPackage.

(** ** Render *)

(** [RenderOptions] are options for [Render]. *)
Module RenderOptions.
Record t : Type := mk {
  SourceLinkFunc : ast.Node → called string;
  Limit : Z
}.
End RenderOptions.

(** What [Render] takes from the packages it imports: the escaping of
    html/template and the constructor of the Renderer. *)
Module Env.
Record t : Type := mk {
  escapers : template.Escapers;
  render_New : token.FileSet → doc.Package.t → render.Renderer
}.
End Env.

(** The packages that pointers of type [*doc.Package] point to. *)
Abbreviation heap := (gmap positive doc.Package.t).

(** [*p] *)
Definition load (h : heap) (p : positive) : outcome doc.Package.t :=
  match h !! p with
  | Some v => Return v
  | None => Panic "runtime error: invalid memory address or nil pointer dereference"
  end.

(** [p.field = v], as the update [set] of the package [p] points to. *)
Definition store (h : heap) (p : positive) (set : doc.Package.t → doc.Package.t)
  : outcome heap :=
  v ← load h p; mret (<[p := set v]> h).

Definition setConsts (v : list doc.Value.t) (p : doc.Package.t) : doc.Package.t :=
  doc.Package.mk (doc.Package.Doc p) (doc.Package.Name p) (doc.Package.ImportPath p)
    (doc.Package.Notes p) v (doc.Package.Types p) (doc.Package.Vars p)
    (doc.Package.Funcs p) (doc.Package.Examples p).

Definition setTypes (v : list doc.Type_.t) (p : doc.Package.t) : doc.Package.t :=
  doc.Package.mk (doc.Package.Doc p) (doc.Package.Name p) (doc.Package.ImportPath p)
    (doc.Package.Notes p) (doc.Package.Consts p) v (doc.Package.Vars p)
    (doc.Package.Funcs p) (doc.Package.Examples p).

Definition setVars (v : list doc.Value.t) (p : doc.Package.t) : doc.Package.t :=
  doc.Package.mk (doc.Package.Doc p) (doc.Package.Name p) (doc.Package.ImportPath p)
    (doc.Package.Notes p) (doc.Package.Consts p) (doc.Package.Types p) v
    (doc.Package.Funcs p) (doc.Package.Examples p).

Definition setFuncs (v : list doc.Func.t) (p : doc.Package.t) : doc.Package.t :=
  doc.Package.mk (doc.Package.Doc p) (doc.Package.Name p) (doc.Package.ImportPath p)
    (doc.Package.Notes p) (doc.Package.Consts p) (doc.Package.Types p)
    (doc.Package.Vars p) v (doc.Package.Examples p).

Definition setExamples (v : list doc.Example.t) (p : doc.Package.t) : doc.Package.t :=
  doc.Package.mk (doc.Package.Doc p) (doc.Package.Name p) (doc.Package.ImportPath p)
    (doc.Package.Notes p) (doc.Package.Consts p) (doc.Package.Types p)
    (doc.Package.Vars p) (doc.Package.Funcs p) v.

Definition megabyte : Z := 1000 * 1000.

(** The closure [sourceLink] of [Render]. *)
Definition sourceLink (opt : RenderOptions.t) (name : string) (node : ast.Node)
  : called string :=
  match RenderOptions.SourceLinkFunc opt node with
  | inl e => inl e
  | inr link =>
      if String.eqb link "" then inr name
      else inr (lit "<a class='Documentation-source' href='" +:+ link
                +:+ lit "'>" +:+ name +:+ "</a>")
  end.

(** The first part of [Render]: the limit, the copy made for a command. *)
Definition prepare (p : positive) (opt : RenderOptions.t) (h : heap)
  : outcome (positive * RenderOptions.t * heap) :=
  let opt :=
    if RenderOptions.Limit opt =? 0
    then RenderOptions.mk (RenderOptions.SourceLinkFunc opt) (10 * megabyte)
    else opt in
  v ← load h p;
  if String.eqb (doc.Package.Name v) "main" then
    let p2 := fresh (dom h) in
    let h := <[p2 := v]> h in
    let p := p2 in
    h ← store h p (setConsts []);
    h ← store h p (setTypes []);
    h ← store h p (setVars []);
    h ← store h p (setFuncs []);
    h ← store h p (setExamples []);
    mret (p, opt, h)
  else
    mret (p, opt, h).

(** The second part: the execution of the template into the buffer. *)
Definition execute (env : Env.t) (fset : token.FileSet) (p : positive)
    (opt : RenderOptions.t) (h : heap) : outcome (limitBuffer.t * option error) :=
  v ← load h p;
  let r := Env.render_New env fset v in
  let buf := limitBuffer.mk "" (RenderOptions.Limit opt) in
  exs ← collectExamples v;
  mret (Execute (htmlPackage (Env.escapers env) r (sourceLink opt)
                   (data.mk "/pkg" v exs)) buf).

(** The last part: the outcome, a pair of the bytes and the error. *)
Definition outcomeOf (buf : limitBuffer.t) (err : option error)
  : string * option error :=
  if limitBuffer.Remain buf <? 0 then
    ("", Some (xerrors.Errorf_w "dochtml.Render: " ErrTooLarge))
  else
    match err with
    | Some err => ("", Some (fmt.Errorf_v "dochtml.Render: " err))
    | None => (limitBuffer.B buf, None)
    end.

(** [Render] renders package documentation HTML for the provided file set
    and package.  It returns the pair of Go and the heap it leaves. *)
Definition Render (env : Env.t) (fset : token.FileSet) (p : positive)
    (opt : RenderOptions.t) (h : heap) : outcome (string * option error * heap) :=
  '(p, opt, h) ← prepare p opt h;
  '(buf, err) ← execute env fset p opt h;
  mret (outcomeOf buf err, h).

(** ** Sorted slices *)

(** [string_le a b] is Go's [a <= b]. *)
Definition string_le (a b : string) : Prop := string_less b a = false.

(** [a] may stand before [b] in a slice sorted by [key]. *)
Definition ordered {A : Type} (key : A → string) (a b : A) : Prop :=
  string_le (key a) (key b).

(** The elements of [l] with the key [k], in their order. *)
Definition keyed {A : Type} (key : A → string) (k : string) (l : list A) : list A :=
  filter (fun a => key a = k) l.

(** ** The index of the examples, in the words of the specification *)

(** The identifier rule, a table on whether the parent and the suffix are
    empty. *)
Definition identifier (parentID suffix : string) : string :=
  match parentID, suffix with
  | EmptyString, EmptyString => "example-package"
  | EmptyString, String _ _ => "example-package-" +:+ suffix
  | String _ _, EmptyString => "example-" +:+ parentID
  | String _ _, String _ _ => "example-" +:+ parentID +:+ "-" +:+ suffix
  end.

(** An example found under the parent [parentID]. *)
Definition indexed (parentID : string) (ex : doc.Example.t) : example.t :=
  example.mk ex (identifier parentID (doc.Example.Suffix ex)) parentID
             (doc.Example.Suffix ex).

(** The examples of a function, under the name of the function. *)
Definition ofFunc (f : doc.Func.t) : list example.t :=
  map (indexed (doc.Func.Name f)) (doc.Func.Examples f).

(** The examples of a type: its own, then those of its associated functions,
    then those of its methods, under the name of the type and the method. *)
Definition ofType (t : doc.Type_.t) : list example.t :=
  map (indexed (doc.Type_.Name t)) (doc.Type_.Examples t)
  ++ flat_map ofFunc (doc.Type_.Funcs t)
  ++ flat_map (fun m =>
       map (indexed (doc.Type_.Name t +:+ "." +:+ doc.Func.Name m))
           (doc.Func.Examples m))
     (doc.Type_.Methods t).

(** The discovery order: the examples of the package, then of each function,
    then of each type. *)
Definition discovery (p : doc.Package.t) : list example.t :=
  map (indexed "") (doc.Package.Examples p)
  ++ flat_map ofFunc (doc.Package.Funcs p)
  ++ flat_map ofType (doc.Package.Types p).

(** The examples of a sequence grouped by parent, each group in the order
    of the sequence. *)
Definition groupInto (m : gmap string (list example.t)) (l : list example.t)
  : gmap string (list example.t) :=
  fold_left (fun m ex =>
    <[example.ParentID ex := index m (example.ParentID ex) ++ [ex]]> m) l m.

Definition byParent (l : list example.t) : gmap string (list example.t) :=
  groupInto ∅ l.

(** What a loop of [collectExamples] adds to the index. *)
Definition grown (exs : examples.t) (l : list example.t) : examples.t :=
  examples.mk (examples.List exs ++ l) (groupInto (examples.Map exs) l).

(** ** The parts of [Render], named *)

(** The options once the default limit is in place. *)
Definition withDefault (opt : RenderOptions.t) : RenderOptions.t :=
  if RenderOptions.Limit opt =? 0
  then RenderOptions.mk (RenderOptions.SourceLinkFunc opt) (10 * megabyte)
  else opt.

(** The copy of a command, its top-level declarations cleared. *)
Definition suppressed (v : doc.Package.t) : doc.Package.t :=
  setExamples [] (setFuncs [] (setVars [] (setTypes [] (setConsts [] v)))).

(** The package that the template is executed on. *)
Definition rendered (v : doc.Package.t) : doc.Package.t :=
  if String.eqb (doc.Package.Name v) "main" then suppressed v else v.

(** The index the specification describes: the discovery order sorted, and
    the groups by parent. *)
Definition indexOf (v : doc.Package.t) : examples.t :=
  examples.mk (sort.SliceStable lessParentID (discovery v)) (byParent (discovery v)).

(** The execution of the template for the package [v]. *)
Definition page (env : Env.t) (fset : token.FileSet) (opt : RenderOptions.t)
    (v : doc.Package.t) : frag :=
  htmlPackage (Env.escapers env) (Env.render_New env fset v) (sourceLink opt)
              (data.mk "/pkg" v (indexOf v)).

(** The state of the sink and the error of the template when the template
    has been executed: [Render] up to its last statement. *)
Definition assembled (env : Env.t) (fset : token.FileSet) (p : positive)
    (opt : RenderOptions.t) (h : heap) : outcome (limitBuffer.t * option error) :=
  '(p, opt, h) ← prepare p opt h;
  execute env fset p opt h.

(** The sink a call of [Render] starts with. *)
Definition emptyBuffer (opt : RenderOptions.t) : limitBuffer.t :=
  limitBuffer.mk "" (RenderOptions.Limit (withDefault opt)).

(** The heap a call of [Render] leaves: for a command, the heap with the
    copy. *)
Definition heapAfter (h : heap) (v : doc.Package.t) : heap :=
  if String.eqb (doc.Package.Name v) "main"
  then <[fresh (dom h) := suppressed v]> h
  else h.

(** All the bytes of the pieces. *)
Definition bytesOf (pieces : list string) : string := String.concat "" pieces.

(** What the limit stands for: the default when it is zero. *)
Definition ceiling (opt : RenderOptions.t) : Z :=
  if RenderOptions.Limit opt =? 0 then 10000000 else RenderOptions.Limit opt.

(** [contains sub s]: [sub] occurs in [s]. *)
Fixpoint contains (sub s : string) : bool :=
  String.prefix sub s ||
  match s with
  | EmptyString => false
  | String _ s' => contains sub s'
  end.

(** ** Sample inputs *)

Module sample.
(** The replacement table of html/template for text and attributes, on
    bytes of ASCII. *)
Definition htmlReplacement (c : ascii) : string :=
  match nat_of_ascii c with
  | 0%nat => String (ascii_of_nat 239) (String (ascii_of_nat 191)
               (String (ascii_of_nat 189) ""))
  | 34%nat => "&#34;"
  | 38%nat => "&amp;"
  | 39%nat => "&#39;"
  | 43%nat => "&#43;"
  | 60%nat => "&lt;"
  | 62%nat => "&gt;"
  | _ => String c ""
  end.

Fixpoint escapeWith (table : ascii → string) (s : string) : string :=
  match s with
  | EmptyString => EmptyString
  | String c s' => table c +:+ escapeWith table s'
  end.

Definition hexDigit (n : nat) : ascii :=
  if (n <? 10)%nat then ascii_of_nat (48 + n) else ascii_of_nat (87 + n).

(** The escaping of a byte in the query or fragment of a URL. *)
Definition urlReplacement (c : ascii) : string :=
  let n := nat_of_ascii c in
  if ((97 <=? n) && (n <=? 122) || (65 <=? n) && (n <=? 90)
      || (48 <=? n) && (n <=? 57)
      || (n =? 45) || (n =? 46) || (n =? 95) || (n =? 126))%nat
  then String c ""
  else String "%" (String (hexDigit (n / 16)) (String (hexDigit (n mod 16)) "")).

Definition escapers : template.Escapers :=
  template.mk (escapeWith htmlReplacement) (escapeWith htmlReplacement)
              (escapeWith urlReplacement).

(** A renderer that marks what it renders. *)
Definition renderer : render.Renderer :=
  render.mk
    (fun decl => inr "func f()")
    (fun doc => inr ("<p>" +:+ doc +:+ "</p>"))
    (fun doc decl => inr (render.mkDecl ("<p>" +:+ doc +:+ "</p>") "<pre>decl</pre>"))
    (fun code => inr "<pre>code</pre>").

Definition env : Env.t := Env.mk escapers (fun _ _ => renderer).

(** Options without source links. *)
Definition options (limit : Z) : RenderOptions.t :=
  RenderOptions.mk (fun _ => inr "") limit.

(** Options whose [SourceLinkFunc] is nil: calling it panics. *)
Definition nilSourceLink (limit : Z) : RenderOptions.t :=
  RenderOptions.mk
    (fun _ => inl (errorString
       "runtime error: invalid memory address or nil pointer dereference"))
    limit.

Definition anExample (suffix : string) : doc.Example.t :=
  doc.Example.mk "" suffix "" 1%positive [] "" false false.

Definition aFunc (name : string) (exs : list doc.Example.t) : doc.Func.t :=
  doc.Func.mk "" name 2%positive "" exs.

(** A library with an example of the package, a function [New] with an
    example and a type [Ring] whose method [Do] has an example. *)
Definition ring : doc.Package.t :=
  doc.Package.mk "Package ring." "ring" "container/ring" ∅ []
    [doc.Type_.mk "" "Ring" 3%positive [] [] []
       [doc.Func.mk "" "Do" 4%positive "r *Ring" [anExample ""]] []]
    [] [aFunc "New" [anExample ""]] [anExample ""].

(** A command with a function, a type and an example. *)
Definition command : doc.Package.t :=
  doc.Package.mk "Command ring." "main" "cmd/ring" ∅ []
    [doc.Type_.mk "" "Ring" 3%positive [] [] [] [] [anExample ""]]
    [] [aFunc "New" [anExample ""]] [anExample ""].

(** A package that has an example and no declarations. *)
Definition examplesOnly : doc.Package.t :=
  doc.Package.mk "" "demo" "demo" ∅ [] [] [] [] [anExample ""].

(** A package with functions named to give the discovery order
    [A(parent "Z"), B(parent ""), C(parent "Z")]. *)
Definition zed : doc.Package.t :=
  doc.Package.mk "" "zed" "zed" ∅ [] [] []
    [aFunc "Z" [anExample "A"]; aFunc "" [anExample "B"]; aFunc "Z" [anExample "C"]]
    [].

(** The heap in which the pointer [1] points to [v]. *)
Definition heapOf (v : doc.Package.t) : heap := {[ 1%positive := v ]}.
End sample.

(** The conditions of the four cases of the switch of [exampleID], in the
    order of the source. *)
Definition switchCases (id suffix : string) : list bool :=
  [ String.eqb id "" && String.eqb suffix "";
    String.eqb id "" && negb (String.eqb suffix "");
    negb (String.eqb id "") && String.eqb suffix "";
    negb (String.eqb id "") && negb (String.eqb suffix "") ].

(** ** Names and hooks *)

(** [s] holds no ['-']: so are the names of functions and types and the
    [TypeName.MethodName] of methods. *)
Fixpoint dashFree (s : string) : bool :=
  match s with
  | EmptyString => true
  | String c s' => negb (Ascii.eqb c "-") && dashFree s'
  end.

(** What stands for the parent in an identifier: ["package"] for the
    package. *)
Definition parentPart (parentID : string) : string :=
  match parentID with
  | EmptyString => "package"
  | String _ _ => parentID
  end.

(** A hook that returns for every argument. *)
Definition returns {A B : Type} (f : A → called B) : Prop :=
  ∀ a, ∃ b, f a = inr b.

(** A renderer none of whose hooks fails. *)
Definition hooksReturn (r : render.Renderer) : Prop :=
  returns (render.Synopsis r) ∧ returns (render.DocHTML r)
  ∧ (∀ doc, returns (render.DeclHTML r doc)) ∧ returns (render.CodeHTML r).

(** An execution that ends without an error. *)
Definition succeeds (f : frag) : Prop := f.2 = None.

(** A package without overview, declarations, examples and notes. *)
Definition blank (v : doc.Package.t) : Prop :=
  doc.Package.Doc v = "" ∧ doc.Package.Notes v = ∅
  ∧ doc.Package.Consts v = [] ∧ doc.Package.Vars v = []
  ∧ doc.Package.Funcs v = [] ∧ doc.Package.Types v = []
  ∧ doc.Package.Examples v = [].

(** A command without overview and notes. *)
Definition bareCommand : doc.Package.t :=
  doc.Package.mk "" "main" "cmd/bare" ∅ [] []
    [] [sample.aFunc "main" []] [].

(** What [collectExamples] keeps for every example of the index. *)
Definition wellIdentified (ex : example.t) : Prop :=
  example.ID ex = identifier (example.ParentID ex) (example.Suffix ex)
  ∧ example.Suffix ex = doc.Example.Suffix (example.Example ex).

(** The parent and the suffix of an example. *)
Definition parentAndSuffix (ex : example.t) : string * string :=
  (example.ParentID ex, example.Suffix ex).

(** * Properties *)

(** ** The order of strings *)

Lemma compare_as_OT a b : String.compare a b = String_as_OT.compare a b.
Proof.
  revert b; induction a as [|c a IH]; intros [|d b]; simpl; try reflexivity.
  all: rewrite IH; unfold Ascii.compare, Ascii_as_OT.compare.
  all: destruct (N.compare _ _); reflexivity.
Qed.

Lemma string_less_lt a b : string_less a b = true ↔ String_as_OT.lt a b.
Proof.
  unfold string_less, String.ltb, String_as_OT.lt. rewrite compare_as_OT.
  destruct (String_as_OT.compare a b); split; congruence.
Qed.

Lemma string_less_irrefl a : string_less a a = false.
Proof.
  destruct (string_less a a) eqn:E; [|reflexivity].
  apply string_less_lt in E.
  destruct (StrictOrder_Irreflexive (R := String_as_OT.lt) a E).
Qed.

Lemma string_less_trans a b c :
  string_less a b = true → string_less b c = true → string_less a c = true.
Proof.
  rewrite !string_less_lt. apply (StrictOrder_Transitive (R := String_as_OT.lt)).
Qed.

Lemma string_less_cases a b :
  string_less a b = true ∨ a = b ∨ string_less b a = true.
Proof.
  destruct (String_as_OT.compare_spec a b) as [E|E|E].
  - right; left; exact E.
  - left; apply string_less_lt; exact E.
  - right; right; apply string_less_lt; exact E.
Qed.

Lemma string_less_le a b : string_less a b = true → string_le a b.
Proof.
  intros H. unfold string_le. destruct (string_less b a) eqn:E; [|reflexivity].
  pose proof (string_less_trans _ _ _ H E) as F.
  rewrite string_less_irrefl in F. discriminate.
Qed.

Lemma string_le_refl a : string_le a a.
Proof. apply string_less_irrefl. Qed.

Lemma string_le_trans a b c : string_le a b → string_le b c → string_le a c.
Proof.
  unfold string_le. intros H1 H2.
  destruct (string_less c a) eqn:E; [|reflexivity].
  destruct (string_less_cases b a) as [F|[F|F]].
  - rewrite F in H1; discriminate.
  - subst b. rewrite E in H2; discriminate.
  - rewrite (string_less_trans _ _ _ E F) in H2; discriminate.
Qed.

Lemma string_le_antisym a b : string_le a b → string_le b a → a = b.
Proof.
  unfold string_le. intros H1 H2.
  destruct (string_less_cases a b) as [F|[F|F]]; congruence.
Qed.

(** ** Stable sorting *)

Section StableSort.
Context {A : Type} (key : A → string).

Let less (a b : A) : bool := string_less (key a) (key b).

Lemma sift_perm x acc : sort.sift less x acc ≡ₚ x :: acc.
Proof.
  induction acc as [|y acc IH]; simpl; [reflexivity|].
  destruct (less x y); [|reflexivity].
  rewrite IH. apply perm_swap.
Qed.

Lemma sift_keyed k x acc : keyed key k (sort.sift less x acc) = keyed key k (x :: acc).
Proof.
  unfold keyed. induction acc as [|y acc IH]; simpl; [reflexivity|].
  destruct (less x y) eqn:E; [|reflexivity].
  assert (key x ≠ key y) as N.
  { intros F. unfold less in E. rewrite F, string_less_irrefl in E. discriminate. }
  rewrite (filter_cons _ y), IH, !filter_cons.
  destruct (decide (key y = k)), (decide (key x = k)); congruence.
Qed.

Lemma sift_sorted x acc :
  StronglySorted (flip (ordered key)) acc → StronglySorted (flip (ordered key)) (sort.sift less x acc).
Proof.
  induction 1 as [|y acc S IH F]; simpl.
  - repeat constructor.
  - destruct (less x y) eqn:E.
    + constructor; [exact IH|].
      rewrite sift_perm.
      constructor; [|exact F].
      apply string_less_le, E.
    + assert (ordered key y x) as Hyx by exact E.
      constructor; [constructor; assumption|].
      constructor; [exact Hyx|].
      eapply Forall_impl; [exact F|].
      intros z Hz. unfold flip, ordered in *. eapply string_le_trans; eassumption.
Qed.

Lemma StronglySorted_snoc (R : A → A → Prop) l a :
  StronglySorted R l → Forall (fun x => R x a) l → StronglySorted R (l ++ [a]).
Proof.
  induction 1 as [|b l S IH F]; intros H; simpl.
  - repeat constructor.
  - inversion H; subst. constructor; [apply IH; assumption|].
    apply Forall_app; split; [exact F|]. repeat constructor; assumption.
Qed.

Lemma StronglySorted_rev (R : A → A → Prop) l :
  StronglySorted (flip R) l → StronglySorted R (rev l).
Proof.
  induction 1 as [|a l S IH F]; simpl; [constructor|].
  apply StronglySorted_snoc; [exact IH|].
  apply Forall_rev. exact F.
Qed.

Lemma fold_sift_perm l acc :
  fold_left (fun acc x => sort.sift less x acc) l acc ≡ₚ rev l ++ acc.
Proof.
  revert acc; induction l as [|x l IH]; intros acc; simpl; [reflexivity|].
  rewrite IH, sift_perm, <- app_assoc. reflexivity.
Qed.

Lemma fold_sift_keyed k l acc :
  keyed key k (fold_left (fun acc x => sort.sift less x acc) l acc)
  = rev (keyed key k l) ++ keyed key k acc.
Proof.
  revert acc; induction l as [|x l IH]; intros acc; simpl; [reflexivity|].
  rewrite IH, sift_keyed. unfold keyed. rewrite !filter_cons.
  destruct (decide (key x = k)); simpl; [|reflexivity].
  rewrite <- app_assoc. reflexivity.
Qed.

Lemma fold_sift_sorted l acc :
  StronglySorted (flip (ordered key)) acc →
  StronglySorted (flip (ordered key)) (fold_left (fun acc x => sort.sift less x acc) l acc).
Proof.
  revert acc; induction l as [|x l IH]; intros acc H; simpl; [exact H|].
  apply IH, sift_sorted, H.
Qed.

Lemma keyed_rev k l : keyed key k (rev l) = rev (keyed key k l).
Proof.
  unfold keyed. induction l as [|x l IH]; simpl; [reflexivity|].
  rewrite filter_app, IH, filter_cons.
  destruct (decide (key x = k)); simpl.
  - rewrite filter_cons_True by assumption. reflexivity.
  - rewrite filter_cons_False by assumption. simpl. rewrite app_nil_r. reflexivity.
Qed.

(** The slice is rearranged, not changed. *)
Lemma SliceStable_perm l : sort.SliceStable less l ≡ₚ l.
Proof.
  unfold sort.SliceStable, sort.insertionSort.
  rewrite <- Permutation_rev, fold_sift_perm, app_nil_r, <- Permutation_rev.
  reflexivity.
Qed.

(** The keys ascend. *)
Lemma SliceStable_sorted l : StronglySorted (ordered key) (sort.SliceStable less l).
Proof.
  apply StronglySorted_rev, fold_sift_sorted. constructor.
Qed.

(** Elements with the same key keep their order. *)
Lemma SliceStable_keyed k l : keyed key k (sort.SliceStable less l) = keyed key k l.
Proof.
  unfold sort.SliceStable, sort.insertionSort.
  rewrite keyed_rev, fold_sift_keyed. simpl. rewrite app_nil_r, rev_involutive.
  reflexivity.
Qed.

Lemma keyed_head a l : keyed key (key a) (a :: l) = a :: keyed key (key a) l.
Proof. unfold keyed. apply filter_cons_True. reflexivity. Qed.

Lemma keyed_elem k a l : a ∈ keyed key k l → a ∈ l.
Proof. unfold keyed. intros H. apply list_elem_of_filter in H. tauto. Qed.

(** Two sorted slices that hold, for every key, the same elements in the
    same order are the same slice: a stable sort has one result. *)
Lemma stable_sort_unique l1 l2 :
  StronglySorted (ordered key) l1 → StronglySorted (ordered key) l2 →
  (∀ k, keyed key k l1 = keyed key k l2) → l1 = l2.
Proof.
  intros S1; revert l2; induction S1 as [|a l1 S1 IH F1]; intros l2 S2 H.
  - destruct l2 as [|b l2]; [reflexivity|].
    specialize (H (key b)). rewrite keyed_head in H. discriminate.
  - destruct S2 as [|b l2 S2 F2].
    + specialize (H (key a)). rewrite keyed_head in H. discriminate.
    + assert (key a = key b) as E.
      { apply string_le_antisym.
        - assert (b ∈ a :: l1) as Hb.
          { apply (keyed_elem (key b)). rewrite H, keyed_head. left. }
          apply elem_of_cons in Hb as [->|Hb]; [apply string_le_refl|].
          rewrite Forall_forall in F1. apply F1, Hb.
        - assert (a ∈ b :: l2) as Ha.
          { apply (keyed_elem (key a)). rewrite <- H, keyed_head. left. }
          apply elem_of_cons in Ha as [->|Ha]; [apply string_le_refl|].
          rewrite Forall_forall in F2. apply F2, Ha. }
      pose proof (H (key a)) as Ha. rewrite keyed_head, E, keyed_head in Ha.
      injection Ha as -> Ha. f_equal. apply IH; [exact S2|].
      intros k. specialize (H k). unfold keyed in *. rewrite !filter_cons in H.
      destruct (decide (key b = k)); congruence.
Qed.

(** Whatever sorts by the key and keeps the order of equal keys returns
    what [SliceStable] returns. *)
Lemma SliceStable_unique l l' :
  StronglySorted (ordered key) l' → (∀ k, keyed key k l' = keyed key k l) →
  l' = sort.SliceStable less l.
Proof.
  intros S H. apply stable_sort_unique; [exact S|apply SliceStable_sorted|].
  intros k. rewrite SliceStable_keyed. apply H.
Qed.
End StableSort.

(** ** The indexer *)

Lemma exampleID_identifier id suffix :
  exampleID id suffix = Return (identifier id suffix).
Proof. destruct id, suffix; reflexivity. Qed.

Lemma appendExample_indexed id ex exs :
  appendExample id ex exs
  = Return (examples.mk (examples.List exs ++ [indexed id ex])
                        (groupInto (examples.Map exs) [indexed id ex])).
Proof. unfold appendExample. rewrite exampleID_identifier. reflexivity. Qed.

Lemma groupInto_app m l1 l2 : groupInto m (l1 ++ l2) = groupInto (groupInto m l1) l2.
Proof. apply fold_left_app. Qed.

Lemma grown_nil exs : grown exs [] = exs.
Proof. destruct exs. unfold grown. simpl. rewrite app_nil_r. reflexivity. Qed.

Lemma grown_app exs l1 l2 : grown (grown exs l1) l2 = grown exs (l1 ++ l2).
Proof. unfold grown. simpl. rewrite app_assoc, groupInto_app. reflexivity. Qed.

Lemma range_examples id l exs :
  range_ l (fun ex exs => appendExample id ex exs) exs
  = Return (grown exs (map (indexed id) l)).
Proof.
  revert exs; induction l as [|ex l IH]; intros exs; simpl.
  - rewrite grown_nil. reflexivity.
  - rewrite appendExample_indexed. simpl. rewrite IH.
    rewrite (grown_app exs [indexed id ex]). reflexivity.
Qed.

(** A loop whose body adds [found x] adds their concatenation. *)
Lemma range_grown {A : Type} (found : A → list example.t) body (l : list A) exs :
  (∀ x exs, body x exs = Return (grown exs (found x))) →
  range_ l body exs = Return (grown exs (flat_map found l)).
Proof.
  intros H. revert exs; induction l as [|x l IH]; intros exs; simpl.
  - rewrite grown_nil. reflexivity.
  - rewrite H. simpl. rewrite IH, grown_app. reflexivity.
Qed.

Lemma discoverExamples_discovery p :
  discoverExamples p = Return (examples.mk (discovery p) (byParent (discovery p))).
Proof.
  unfold discoverExamples.
  rewrite range_examples. simpl.
  rewrite (range_grown ofFunc) by (intros; apply range_examples). simpl.
  rewrite (range_grown ofType).
  - rewrite !grown_app. reflexivity.
  - intros t exs. rewrite range_examples. simpl.
    rewrite (range_grown ofFunc) by (intros; apply range_examples). simpl.
    rewrite (range_grown (fun m =>
      map (indexed (doc.Type_.Name t +:+ "." +:+ doc.Func.Name m))
          (doc.Func.Examples m))) by (intros; apply range_examples).
    rewrite !grown_app. reflexivity.
Qed.

Lemma collectExamples_sorted p :
  collectExamples p
  = Return (examples.mk (sort.SliceStable lessParentID (discovery p))
                        (byParent (discovery p))).
Proof. unfold collectExamples. rewrite discoverExamples_discovery. reflexivity. Qed.

(** The group of a parent holds its examples in the order of discovery. *)
Lemma index_groupInto m l k :
  index (groupInto m l) k = index m k ++ keyed example.ParentID k l.
Proof.
  revert m; induction l as [|ex l IH]; intros m; simpl.
  - rewrite app_nil_r. reflexivity.
  - rewrite IH. unfold keyed. rewrite filter_cons. unfold index at 1.
    destruct (decide (example.ParentID ex = k)) as [->|N].
    + rewrite lookup_insert_eq. simpl. rewrite <- app_assoc. reflexivity.
    + rewrite lookup_insert_ne by exact N. reflexivity.
Qed.

Lemma index_byParent l k : index (byParent l) k = keyed example.ParentID k l.
Proof. unfold byParent. rewrite index_groupInto. reflexivity. Qed.

(** ** Render, step by step *)

Lemma load_Some (h : heap) p v : h !! p = Some v → load h p = Return v.
Proof. unfold load. intros ->. reflexivity. Qed.

Lemma store_insert (h : heap) p v set :
  store (<[p := v]> h) p set = Return (<[p := set v]> h).
Proof.
  unfold store. rewrite (load_Some _ _ v) by apply lookup_insert_eq.
  simpl. rewrite insert_insert_eq. reflexivity.
Qed.

Lemma prepare_eq (h : heap) p opt v :
  h !! p = Some v →
  prepare p opt h
  = Return (if String.eqb (doc.Package.Name v) "main" then fresh (dom h) else p,
            withDefault opt, heapAfter h v).
Proof.
  intros H. unfold prepare, heapAfter. rewrite (load_Some _ _ _ H). simpl.
  destruct (String.eqb (doc.Package.Name v) "main"); [|reflexivity].
  repeat (rewrite store_insert; unfold mbind, outcome_bind).
  reflexivity.
Qed.

Lemma fresh_heap (h : heap) : h !! fresh (dom h) = None.
Proof. apply not_elem_of_dom, is_fresh. Qed.

Lemma heapAfter_lookup (h : heap) v p :
  h !! p = Some v → heapAfter h v !! p = Some v.
Proof.
  intros H. unfold heapAfter.
  destruct (String.eqb (doc.Package.Name v) "main"); [|exact H].
  rewrite lookup_insert_ne; [exact H|].
  intros E. rewrite <- E, fresh_heap in H. discriminate.
Qed.

Lemma heapAfter_old (h : heap) v q :
  q ∈ dom h → heapAfter h v !! q = h !! q.
Proof.
  intros H. unfold heapAfter.
  destruct (String.eqb (doc.Package.Name v) "main"); [|reflexivity].
  apply lookup_insert_ne. intros E. subst q. exact (is_fresh (dom h) H).
Qed.

Lemma execute_eq env fset (h : heap) p opt v :
  h !! p = Some v →
  execute env fset p opt h
  = Return (Execute (page env fset opt v) (limitBuffer.mk "" (RenderOptions.Limit opt))).
Proof.
  intros H. unfold execute. rewrite (load_Some _ _ _ H). simpl.
  rewrite collectExamples_sorted. reflexivity.
Qed.

Lemma assembled_eq env fset (h : heap) p opt v :
  h !! p = Some v →
  assembled env fset p opt h
  = Return (Execute (page env fset (withDefault opt) (rendered v)) (emptyBuffer opt)).
Proof.
  intros H. unfold assembled. rewrite (prepare_eq _ _ _ _ H). simpl.
  apply execute_eq. unfold heapAfter, rendered.
  destruct (String.eqb (doc.Package.Name v) "main"); [|exact H].
  apply lookup_insert_eq.
Qed.

Lemma Render_eq env fset (h : heap) p opt v :
  h !! p = Some v →
  Render env fset p opt h
  = Return (let s := Execute (page env fset (withDefault opt) (rendered v))
                             (emptyBuffer opt) in
            outcomeOf s.1 s.2, heapAfter h v).
Proof.
  intros H. unfold Render. rewrite (prepare_eq _ _ _ _ H). simpl.
  erewrite execute_eq.
  - reflexivity.
  - unfold heapAfter, rendered.
    destruct (String.eqb (doc.Package.Name v) "main"); [|exact H].
    apply lookup_insert_eq.
Qed.

(** ** The sink *)

Lemma int64_small z : - 2 ^ 63 ≤ z < 2 ^ 63 → int64 z = z.
Proof. intros H. unfold int64. rewrite Z.mod_small; lia. Qed.

Lemma int64_sub z n : int64 (int64 z - n) = int64 (z - n).
Proof.
  unfold int64.
  replace (((z + 2 ^ 63) mod 2 ^ 64 - 2 ^ 63 - n + 2 ^ 63))
    with ((z + 2 ^ 63) mod 2 ^ 64 - n) by lia.
  replace (z - n + 2 ^ 63) with (z + 2 ^ 63 - n) by lia.
  rewrite Zminus_mod_idemp_l. reflexivity.
Qed.

Lemma append_cons c (a b : string) : String c a +:+ b = String c (a +:+ b).
Proof. reflexivity. Qed.

Lemma length_append (a b : string) :
  String.length (a +:+ b) = (String.length a + String.length b)%nat.
Proof.
  induction a as [|c a IH]; [reflexivity|].
  rewrite append_cons. simpl. rewrite IH. reflexivity.
Qed.

Lemma append_assoc (a b c : string) : (a +:+ b) +:+ c = a +:+ (b +:+ c).
Proof.
  induction a as [|x a IH]; [reflexivity|].
  rewrite !append_cons, IH. reflexivity.
Qed.

Lemma append_empty_r (a : string) : a +:+ "" = a.
Proof.
  induction a as [|x a IH]; [reflexivity|].
  rewrite append_cons, IH. reflexivity.
Qed.

Lemma bytesOf_cons s l : bytesOf (s :: l) = s +:+ bytesOf l.
Proof.
  unfold bytesOf. destruct l as [|t l]; simpl.
  - symmetry. apply append_empty_r.
  - reflexivity.
Qed.

(** What the writes of an execution leave in the sink. *)
Lemma Write_all pieces (buf : limitBuffer.t) :
  limitBuffer.B (fold_left limitBuffer.Write pieces buf)
    = limitBuffer.B buf +:+ bytesOf pieces
  ∧ int64 (limitBuffer.Remain (fold_left limitBuffer.Write pieces buf))
    = int64 (limitBuffer.Remain buf - Z.of_nat (String.length (bytesOf pieces))).
Proof.
  revert buf; induction pieces as [|s l IH]; intros buf.
  - simpl. rewrite append_empty_r, Z.sub_0_r. split; reflexivity.
  - simpl fold_left. destruct (IH (limitBuffer.Write buf s)) as [HB HR].
    rewrite HB, HR, bytesOf_cons. simpl.
    rewrite append_assoc, int64_sub, length_append.
    split; [reflexivity|]. f_equal. lia.
Qed.

Lemma Remain_int64 pieces (buf : limitBuffer.t) :
  - 2 ^ 63 ≤ limitBuffer.Remain buf < 2 ^ 63 →
  - 2 ^ 63 ≤ limitBuffer.Remain (fold_left limitBuffer.Write pieces buf) < 2 ^ 63.
Proof.
  revert buf; induction pieces as [|s l IH]; intros buf H; simpl; [exact H|].
  apply IH. unfold limitBuffer.Write, int64. simpl.
  pose proof (Z.mod_pos_bound
    (limitBuffer.Remain buf - Z.of_nat (String.length s) + 2 ^ 63) (2 ^ 64)).
  lia.
Qed.

(** The bytes in the sink after an execution, and what remains of the limit
    when the subtraction stays within an [int64]. *)
Lemma Execute_sink f (opt : RenderOptions.t) :
  let buf := (Execute f (emptyBuffer opt)).1 in
  let n := Z.of_nat (String.length (limitBuffer.B buf)) in
  limitBuffer.B buf = bytesOf f.1 ∧
  (ceiling opt < 2 ^ 63 → - 2 ^ 63 ≤ ceiling opt - n →
   limitBuffer.Remain buf = ceiling opt - n).
Proof.
  simpl. destruct (Write_all f.1 (emptyBuffer opt)) as [HB HR].
  assert (RenderOptions.Limit (withDefault opt) = ceiling opt) as HL.
  { unfold withDefault, ceiling. destruct (RenderOptions.Limit opt =? 0); reflexivity. }
  split; [exact HB|]. intros Hhi Hlo.
  rewrite HB in *. simpl in *. rewrite HL in *.
  rewrite <- (int64_small (limitBuffer.Remain _)).
  - rewrite HR. apply int64_small. lia.
  - apply Remain_int64. simpl. lia.
Qed.

(** ** The identifier of an example *)

(** C1: the identifier of an example is a function of the parent and the
    suffix, given by the table of four rows: ["example-package"] when both
    are empty, ["example-package-" + suffix] when only the parent is empty,
    ["example-" + parentID] when only the suffix is empty, and
    ["example-" + parentID + "-" + suffix] when neither is. *)
Theorem exampleID_table :
  (∀ id suffix, exampleID id suffix = Return (identifier id suffix))
  ∧ exampleID "" "" = Return "example-package"
  ∧ (∀ c s, exampleID "" (String c s) = Return ("example-package-" +:+ String c s))
  ∧ (∀ c i, exampleID (String c i) "" = Return ("example-" +:+ String c i))
  ∧ (∀ c i d s, exampleID (String c i) (String d s)
                = Return ("example-" +:+ String c i +:+ "-" +:+ String d s)).
Proof.
  split; [exact exampleID_identifier|].
  repeat split; intros; reflexivity.
Qed.

(** C10: [exampleID] never panics: whatever the parent and the suffix,
    exactly one of the four cases of the switch applies, and the function
    returns a string. *)
Theorem exampleID_never_panics :
  ∀ id suffix,
    (∃ s, exampleID id suffix = Return s)
    ∧ length (List.filter (fun b : bool => b) (switchCases id suffix)) = 1%nat.
Proof.
  intros id suffix. split.
  - exists (identifier id suffix). apply exampleID_identifier.
  - destruct id, suffix; reflexivity.
Qed.

(** ** The index of the examples *)

(** C6: the indexer finds the examples of the package first, then those of
    each function, then for each type its own, those of its associated
    functions and those of its methods; the parent is [""] for the package,
    the name of the function for a function, also under a type, the name of
    the type for a type, and [TypeName.MethodName] for a method. *)
Theorem discovery_order :
  ∀ p,
    discoverExamples p
    = Return (examples.mk
        (map (indexed "") (doc.Package.Examples p)
         ++ flat_map (fun f => map (indexed (doc.Func.Name f)) (doc.Func.Examples f))
              (doc.Package.Funcs p)
         ++ flat_map (fun t =>
              map (indexed (doc.Type_.Name t)) (doc.Type_.Examples t)
              ++ flat_map (fun f =>
                   map (indexed (doc.Func.Name f)) (doc.Func.Examples f))
                   (doc.Type_.Funcs t)
              ++ flat_map (fun m =>
                   map (indexed (doc.Type_.Name t +:+ "." +:+ doc.Func.Name m))
                       (doc.Func.Examples m))
                   (doc.Type_.Methods t))
              (doc.Package.Types p))
        (byParent (discovery p))).
Proof. intros p. apply discoverExamples_discovery. Qed.

(** C2: the list of the index is the discovery order sorted by parent,
    ascending in the order of strings, examples of the same parent keeping
    their order of discovery; the discovery order [A] under ["Z"], [B] under
    [""], [C] under ["Z"] gives [B], [A], [C]. *)
Theorem collectExamples_stable_sort :
  (∀ p, ∃ exs,
     collectExamples p = Return exs
     ∧ examples.List exs = sort.SliceStable lessParentID (discovery p)
     ∧ examples.List exs ≡ₚ discovery p
     ∧ StronglySorted (ordered example.ParentID) (examples.List exs)
     ∧ ∀ parentID, keyed example.ParentID parentID (examples.List exs)
                   = keyed example.ParentID parentID (discovery p))
  ∧ (∀ a b c ia ib ic sa sb sc,
       sort.SliceStable lessParentID
         [example.mk a ia "Z" sa; example.mk b ib "" sb; example.mk c ic "Z" sc]
       = [example.mk b ib "" sb; example.mk a ia "Z" sa; example.mk c ic "Z" sc])
  ∧ (∃ m, collectExamples sample.zed
          = Return (examples.mk [indexed "" (sample.anExample "B");
                                 indexed "Z" (sample.anExample "A");
                                 indexed "Z" (sample.anExample "C")] m)).
Proof.
  split; [|split].
  - intros p. eexists. split; [apply collectExamples_sorted|]. simpl.
    split; [reflexivity|]. split; [|split].
    + apply (SliceStable_perm example.ParentID).
    + apply (SliceStable_sorted example.ParentID).
    + intros k. apply (SliceStable_keyed example.ParentID).
  - intros. reflexivity.
  - eexists. rewrite collectExamples_sorted. reflexivity.
Qed.

(** ** The outcome of Render *)

Lemma Is_tooLarge :
  Is (xerrors.Errorf_w "dochtml.Render: " ErrTooLarge) ErrTooLarge = true.
Proof. reflexivity. Qed.

Lemma Is_generic err : Is (fmt.Errorf_v "dochtml.Render: " err) ErrTooLarge = false.
Proof.
  unfold fmt.Errorf_v, ErrTooLarge, Is.
  rewrite bool_decide_eq_false_2; [reflexivity|].
  intros H. discriminate H.
Qed.

(** C3: the outcome of [Render] is decided in this order: when the ceiling
    of the sink was exceeded, the failure is the oversized output, also when
    the template returned an error; otherwise, when the template returned an
    error, the failure is a rendering failure made of that error; otherwise
    the bytes of the sink are returned.  A failure returns no bytes. *)
Theorem Render_outcome_precedence env fset p opt (h : heap) v :
  h !! p = Some v →
  ∃ buf err res h',
    assembled env fset p opt h = Return (buf, err)
    ∧ Render env fset p opt h = Return (res, h')
    ∧ res = (if limitBuffer.Remain buf <? 0
             then ("", Some (xerrors.Errorf_w "dochtml.Render: " ErrTooLarge))
             else match err with
                  | Some e => ("", Some (fmt.Errorf_v "dochtml.Render: " e))
                  | None => (limitBuffer.B buf, None)
                  end)
    ∧ Is (xerrors.Errorf_w "dochtml.Render: " ErrTooLarge) ErrTooLarge = true
    ∧ (∀ e, Is (fmt.Errorf_v "dochtml.Render: " e) ErrTooLarge = false)
    ∧ (res.2 = None ∨ res.1 = "").
Proof.
  intros H. do 4 eexists.
  split; [apply (assembled_eq _ _ _ _ _ _ H)|].
  split; [apply (Render_eq _ _ _ _ _ _ H)|].
  split; [reflexivity|]. split; [exact Is_tooLarge|]. split; [exact Is_generic|].
  cbv zeta. unfold outcomeOf.
  destruct (limitBuffer.Remain _ <? 0); [right; reflexivity|].
  destruct (Execute _ _).2; [right|left]; reflexivity.
Qed.

(** The witness of C3: a slice of ten bytes for a page that is longer, and
    a [SourceLinkFunc] that is nil. *)
Lemma Render_outcome_precedence_witness :
  ∃ buf err res h',
    assembled sample.env 1%positive 1%positive (sample.nilSourceLink 10)
              (sample.heapOf sample.ring) = Return (buf, err)
    ∧ Render sample.env 1%positive 1%positive (sample.nilSourceLink 10)
             (sample.heapOf sample.ring) = Return (res, h')
    ∧ res = (if limitBuffer.Remain buf <? 0
             then ("", Some (xerrors.Errorf_w "dochtml.Render: " ErrTooLarge))
             else match err with
                  | Some e => ("", Some (fmt.Errorf_v "dochtml.Render: " e))
                  | None => (limitBuffer.B buf, None)
                  end)
    ∧ Is (xerrors.Errorf_w "dochtml.Render: " ErrTooLarge) ErrTooLarge = true
    ∧ (∀ e, Is (fmt.Errorf_v "dochtml.Render: " e) ErrTooLarge = false)
    ∧ (res.2 = None ∨ res.1 = "").
Proof.
  apply (Render_outcome_precedence sample.env 1%positive 1%positive
           (sample.nilSourceLink 10) (sample.heapOf sample.ring) sample.ring).
  reflexivity.
Defined.

(** The ceiling is exceeded and the template fails in one call: the failure
    is the oversized output. *)
Example Render_both_failures :
  ∃ buf e h',
    assembled sample.env 1%positive 1%positive (sample.nilSourceLink 10)
              (sample.heapOf sample.ring) = Return (buf, Some e)
    ∧ limitBuffer.Remain buf < 0
    ∧ Render sample.env 1%positive 1%positive (sample.nilSourceLink 10)
             (sample.heapOf sample.ring)
      = Return ("", Some (xerrors.Errorf_w "dochtml.Render: " ErrTooLarge), h').
Proof.
  do 3 eexists. split; [vm_compute; reflexivity|].
  split; [vm_compute; reflexivity|]. vm_compute. reflexivity.
Qed.

(** ** The ceiling *)

Lemma withDefault_ceiling opt :
  withDefault (RenderOptions.mk (RenderOptions.SourceLinkFunc opt) (ceiling opt))
  = withDefault opt.
Proof.
  unfold withDefault, ceiling. simpl. destruct opt as [f l]. simpl.
  destruct (l =? 0) eqn:E; [reflexivity|]. rewrite E. reflexivity.
Qed.

Lemma Render_withDefault env fset p opt h :
  Render env fset p (withDefault opt) h = Render env fset p opt h.
Proof.
  unfold Render, prepare. fold (withDefault opt). fold (withDefault (withDefault opt)).
  assert (withDefault (withDefault opt) = withDefault opt) as ->; [|reflexivity].
  unfold withDefault. destruct (RenderOptions.Limit opt =? 0) eqn:E; simpl.
  - reflexivity.
  - rewrite E. reflexivity.
Qed.

(** The ceiling within an [int64]: when the subtraction of the bytes
    written from the limit does not wrap around, as for every limit that is
    not negative, an output of at most [limit] bytes, [limit] bytes
    included, is not oversized, and an output of [limit + 1] bytes or more
    fails with the oversized output; the limit zero stands for
    10,000,000. *)
Theorem Render_ceiling env fset p opt (h : heap) v buf err :
  h !! p = Some v →
  assembled env fset p opt h = Return (buf, err) →
  ceiling opt < 2 ^ 63 →
  - 2 ^ 63 ≤ ceiling opt - Z.of_nat (String.length (limitBuffer.B buf)) →
  ∃ res h',
    Render env fset p opt h = Return (res, h')
    ∧ res = (if Z.of_nat (String.length (limitBuffer.B buf)) <=? ceiling opt
             then match err with
                  | None => (limitBuffer.B buf, None)
                  | Some e => ("", Some (fmt.Errorf_v "dochtml.Render: " e))
                  end
             else ("", Some (xerrors.Errorf_w "dochtml.Render: " ErrTooLarge)))
    ∧ Render env fset p
        (RenderOptions.mk (RenderOptions.SourceLinkFunc opt) (ceiling opt)) h
      = Render env fset p opt h.
Proof.
  intros H A Hhi Hlo. rewrite (assembled_eq _ _ _ _ _ _ H) in A.
  assert (Execute (page env fset (withDefault opt) (rendered v)) (emptyBuffer opt)
          = (buf, err)) as E by congruence.
  clear A. do 2 eexists. split; [apply (Render_eq _ _ _ _ _ _ H)|].
  pose proof (Execute_sink (page env fset (withDefault opt) (rendered v)) opt) as HS.
  cbv zeta in HS. rewrite E in HS. simpl in HS. destruct HS as [_ HR].
  specialize (HR Hhi Hlo).
  split.
  - cbv zeta. rewrite E. simpl. unfold outcomeOf. rewrite HR.
    destruct (Z.leb_spec (Z.of_nat (String.length (limitBuffer.B buf))) (ceiling opt));
      destruct (Z.ltb_spec (ceiling opt - Z.of_nat (String.length (limitBuffer.B buf))) 0);
      try lia; reflexivity.
  - rewrite <- (Render_withDefault _ _ _ opt), <- withDefault_ceiling.
    symmetry. apply Render_withDefault.
Qed.

(** An instance: the page of [sample.ring] under the default limit. *)
Lemma Render_ceiling_witness :
  ∃ buf err res h',
    assembled sample.env 1%positive 1%positive (sample.options 0)
              (sample.heapOf sample.ring) = Return (buf, err)
    ∧ Render sample.env 1%positive 1%positive (sample.options 0)
             (sample.heapOf sample.ring) = Return (res, h')
    ∧ res = (if Z.of_nat (String.length (limitBuffer.B buf)) <=? 10000000
             then match err with
                  | None => (limitBuffer.B buf, None)
                  | Some e => ("", Some (fmt.Errorf_v "dochtml.Render: " e))
                  end
             else ("", Some (xerrors.Errorf_w "dochtml.Render: " ErrTooLarge)))
    ∧ Render sample.env 1%positive 1%positive (sample.options 10000000)
             (sample.heapOf sample.ring)
      = Render sample.env 1%positive 1%positive (sample.options 0)
               (sample.heapOf sample.ring).
Proof.
  eexists _, _.
  assert (assembled sample.env 1%positive 1%positive (sample.options 0)
            (sample.heapOf sample.ring) = Return (_, _)) as A
    by (vm_compute; reflexivity).
  destruct (Render_ceiling sample.env 1%positive 1%positive (sample.options 0)
              (sample.heapOf sample.ring) sample.ring _ _ eq_refl A)
    as (res & h' & R & E & D).
  - vm_compute. reflexivity.
  - vm_compute. discriminate.
  - exists res, h'. split; [exact A|]. split; [exact R|]. split; [exact E|exact D].
Defined.


(** ** Commands *)

Lemma seq_nothing_r f : f >>> nothing = f.
Proof.
  destruct f as [o [e|]]; [reflexivity|]. unfold seq. simpl.
  rewrite app_nil_r. reflexivity.
Qed.

Lemma suppressed_fields v :
  suppressed v
  = doc.Package.mk (doc.Package.Doc v) (doc.Package.Name v)
      (doc.Package.ImportPath v) (doc.Package.Notes v) [] [] [] [] [].
Proof. reflexivity. Qed.

Lemma indexOf_suppressed v : indexOf (suppressed v) = examples.mk [] ∅.
Proof. reflexivity. Qed.

(** Without constants, variables, functions and types the section of the
    index writes nothing, whatever the examples. *)
Lemma indexSection_without_declarations esc r link d :
  doc.Package.Consts (data.Package d) = [] →
  doc.Package.Vars (data.Package d) = [] →
  doc.Package.Funcs (data.Package d) = [] →
  doc.Package.Types (data.Package d) = [] →
  indexSection esc r link d = nothing.
Proof. unfold indexSection. intros -> -> -> ->. reflexivity. Qed.

(** With one of them the section holds the entries, then the list of the
    examples, then the bodies. *)
Lemma indexSection_with_declarations esc r link d :
  any (doc.Package.Consts (data.Package d)) || any (doc.Package.Vars (data.Package d))
  || any (doc.Package.Funcs (data.Package d)) || any (doc.Package.Types (data.Package d))
  = true →
  indexSection esc r link d
  = indexList esc r d >>> examplesList esc (data.Examples d) >>> bodies esc r link d.
Proof. unfold indexSection. intros ->. reflexivity. Qed.

Lemma page_suppressed env fset opt v :
  page env fset opt (suppressed v)
  = (let d := data.mk "/pkg" (suppressed v) (examples.mk [] ∅) in
     let r := Env.render_New env fset (suppressed v) in
     html (Env.escapers env) "" >>> navigation (Env.escapers env) d
     >>> overview (Env.escapers env) r d >>> notes (Env.escapers env) r d).
Proof.
  unfold page, htmlPackage. rewrite indexOf_suppressed.
  rewrite indexSection_without_declarations by reflexivity.
  rewrite seq_nothing_r. reflexivity.
Qed.

(** C5: for a package named [main], [Render] works on a copy whose
    constants, variables, functions, types and examples are cleared and
    whose overview and notes are kept; the package the caller passed is
    unchanged when [Render] returns; the section of the index, where the
    anchors of functions and types are written, writes nothing, and the page
    is made of the navigation, the overview and the notes of the copy. *)
Theorem Render_command env fset p opt (h : heap) v :
  h !! p = Some v →
  doc.Package.Name v = "main" →
  ∃ p2 res h',
    let v2 := doc.Package.mk (doc.Package.Doc v) (doc.Package.Name v)
                (doc.Package.ImportPath v) (doc.Package.Notes v) [] [] [] [] [] in
    let d := data.mk "/pkg" v2 (examples.mk [] ∅) in
    let r := Env.render_New env fset v2 in
    let esc := Env.escapers env in
    Render env fset p opt h = Return (res, h')
    ∧ h !! p2 = None
    ∧ h' = <[p2 := v2]> h
    ∧ h' !! p = Some v
    ∧ indexOf v2 = examples.mk [] ∅
    ∧ indexSection esc r (sourceLink (withDefault opt)) d = nothing
    ∧ res = (let s := Execute (html esc "" >>> navigation esc d >>> overview esc r d
                               >>> notes esc r d) (emptyBuffer opt) in
             outcomeOf s.1 s.2).
Proof.
  intros H N. exists (fresh (dom h)). do 2 eexists. cbv zeta.
  split; [apply (Render_eq _ _ _ _ _ _ H)|].
  split; [apply fresh_heap|].
  assert (String.eqb (doc.Package.Name v) "main" = true) as E
    by (apply String.eqb_eq, N).
  split; [unfold heapAfter; rewrite E; reflexivity|].
  split; [apply heapAfter_lookup, H|].
  split; [reflexivity|]. split; [reflexivity|].
  unfold rendered. rewrite E, page_suppressed. reflexivity.
Qed.

(** The witness of C5: the command [sample.command]. *)
Lemma Render_command_witness :
  ∃ p2 res h',
    let v := sample.command in
    let v2 := doc.Package.mk (doc.Package.Doc v) (doc.Package.Name v)
                (doc.Package.ImportPath v) (doc.Package.Notes v) [] [] [] [] [] in
    let d := data.mk "/pkg" v2 (examples.mk [] ∅) in
    let r := Env.render_New sample.env 1%positive v2 in
    let esc := Env.escapers sample.env in
    Render sample.env 1%positive 1%positive (sample.options 0) (sample.heapOf v)
      = Return (res, h')
    ∧ sample.heapOf v !! p2 = None
    ∧ h' = <[p2 := v2]> (sample.heapOf v)
    ∧ h' !! 1%positive = Some v
    ∧ indexOf v2 = examples.mk [] ∅
    ∧ indexSection esc r (sourceLink (withDefault (sample.options 0))) d = nothing
    ∧ res = (let s := Execute (html esc "" >>> navigation esc d >>> overview esc r d
                               >>> notes esc r d) (emptyBuffer (sample.options 0)) in
             outcomeOf s.1 s.2).
Proof.
  apply (Render_command sample.env 1%positive 1%positive (sample.options 0)
           (sample.heapOf sample.command) sample.command); reflexivity.
Defined.

(** The page of a command does not depend on its declarations: two
    commands with the same overview, import path and notes have the same
    page. *)
Lemma Render_command_ignores_declarations env fset p opt (h h' : heap) v v' :
  h !! p = Some v → h' !! p = Some v' →
  doc.Package.Name v = "main" → doc.Package.Name v' = "main" →
  doc.Package.Doc v = doc.Package.Doc v' →
  doc.Package.ImportPath v = doc.Package.ImportPath v' →
  doc.Package.Notes v = doc.Package.Notes v' →
  ∃ res h1 h1',
    Render env fset p opt h = Return (res, h1)
    ∧ Render env fset p opt h' = Return (res, h1').
Proof.
  intros H H' N N' ED EI EN. do 3 eexists.
  split; [apply (Render_eq _ _ _ _ _ _ H)|].
  rewrite (Render_eq _ _ _ _ _ _ H'). unfold rendered.
  rewrite N, N'. simpl. rewrite !suppressed_fields, N, N', ED, EI, EN.
  reflexivity.
Qed.

(** The page of [sample.command] has the overview and no anchor of its
    function [New] or its type [Ring]. *)
Example Render_command_page :
  ∃ out h',
    Render sample.env 1%positive 1%positive (sample.options 0)
           (sample.heapOf sample.command) = Return (out, None, h')
    ∧ contains (lit "id='pkg-overview'") out = true
    ∧ contains (lit "id='New'") out = false
    ∧ contains (lit "href='#New'") out = false
    ∧ contains (lit "id='Ring'") out = false
    ∧ contains (lit "href='#Ring'") out = false.
Proof.
  do 2 eexists. split; [vm_compute; reflexivity|].
  repeat split; vm_compute; reflexivity.
Qed.

(** ** The list of the examples *)

(** C7, evaluated where the code departs from it: [sample.examplesOnly] has
    an example and no constants, variables, functions or types.  The index
    holds the example and the navigation links to the list of examples, but
    the list, which the template places in the section of the index, is not
    written. *)
Theorem examples_list_without_declarations :
  ∃ out h',
    Render sample.env 1%positive 1%positive (sample.options 0)
           (sample.heapOf sample.examplesOnly) = Return (out, None, h')
    ∧ any (examples.List (indexOf sample.examplesOnly)) = true
    ∧ contains (lit "<li><a href='#pkg-examples'>Examples</a></li>") out = true
    ∧ contains (lit "id='pkg-examples'") out = false.
Proof.
  do 2 eexists. split; [vm_compute; reflexivity|].
  repeat split; vm_compute; reflexivity.
Qed.

(** With a declaration the list is written, each entry under the parent, or
    [Package], then the suffix in parentheses. *)
Example examples_list_of_ring :
  bytesOf (examplesList sample.escapers (indexOf sample.ring)).1
  = lit "<h3 id='pkg-examples'>Examples <a href='#pkg-examples'>¶</a></h3>" +:+ nl
    +:+ "<ul>" +:+ nl
    +:+ lit "<li><a href='#example-package'>Package</a></li>" +:+ nl
    +:+ lit "<li><a href='#example-New'>New</a></li>" +:+ nl
    +:+ lit "<li><a href='#example-Ring.Do'>Ring.Do</a></li>" +:+ nl
    +:+ "</ul>" +:+ nl.
Proof. vm_compute. reflexivity. Qed.

(** The index of [sample.ring] lists the example of the package, then the
    one of [New], then the one of [Ring.Do]. *)
Example index_of_ring :
  map example.ID (examples.List (indexOf sample.ring))
  = ["example-package"; "example-New"; "example-Ring.Do"].
Proof. reflexivity. Qed.

(** ** Determinism *)

(** C8: [Render] is deterministic: two calls with the same package, the
    same options and the same hooks return the same bytes and the same
    error, in whatever heaps the package lies, and so does a second call on
    the heap the first one left. *)
Theorem Render_deterministic env fset p opt (h h' : heap) v :
  h !! p = Some v →
  h' !! p = Some v →
  ∃ res h1 h1' h2,
    Render env fset p opt h = Return (res, h1)
    ∧ Render env fset p opt h' = Return (res, h1')
    ∧ Render env fset p opt h1 = Return (res, h2).
Proof.
  intros H H'. do 4 eexists.
  split; [apply (Render_eq _ _ _ _ _ _ H)|].
  split; [apply (Render_eq _ _ _ _ _ _ H')|].
  apply (Render_eq _ _ _ _ _ _ (heapAfter_lookup _ _ _ H)).
Qed.

(** The witness of C8: calls for the command [sample.command], alone in the
    heap and beside [sample.ring]. *)
Lemma Render_deterministic_witness :
  ∃ res h1 h1' h2,
    Render sample.env 1%positive 1%positive (sample.options 0)
           (sample.heapOf sample.command) = Return (res, h1)
    ∧ Render sample.env 1%positive 1%positive (sample.options 0)
             (<[2%positive := sample.ring]> (sample.heapOf sample.command))
      = Return (res, h1')
    ∧ Render sample.env 1%positive 1%positive (sample.options 0) h1
      = Return (res, h2).
Proof.
  apply (Render_deterministic sample.env 1%positive 1%positive (sample.options 0)
           (sample.heapOf sample.command)
           (<[2%positive := sample.ring]> (sample.heapOf sample.command))
           sample.command); reflexivity.
Defined.

(** * Further properties *)

(** ** The groups of the index *)

Lemma lookup_groupInto m l k :
  groupInto m l !! k
  = match keyed example.ParentID k l with
    | [] => m !! k
    | g => Some (index m k ++ g)
    end.
Proof.
  revert m; induction l as [|ex l IH]; intros m; [reflexivity|].
  simpl. rewrite IH. unfold keyed. rewrite filter_cons. unfold index.
  destruct (decide (example.ParentID ex = k)) as [->|N].
  - rewrite lookup_insert_eq. simpl.
    destruct (filter _ l); simpl; rewrite <- ?app_assoc; reflexivity.
  - rewrite lookup_insert_ne by exact N. reflexivity.
Qed.

(** X1: in the index [collectExamples] returns, the group of a parent in
    [Map] is the run of the examples of [List] with that parent, in the same
    order; a parent without examples has no key, and reads as the nil
    slice. *)
Theorem collectExamples_groups :
  ∀ p, ∃ exs,
    collectExamples p = Return exs
    ∧ ∀ parentID,
        index (examples.Map exs) parentID
        = keyed example.ParentID parentID (examples.List exs)
        ∧ (examples.Map exs !! parentID = None
           ↔ keyed example.ParentID parentID (examples.List exs) = [])
        ∧ examples.Map exs !! parentID ≠ Some [].
Proof.
  intros p. eexists. split; [apply collectExamples_sorted|]. simpl.
  intros k. rewrite (SliceStable_keyed example.ParentID).
  split; [apply index_byParent|].
  unfold byParent. rewrite lookup_groupInto.
  destruct (keyed example.ParentID k (discovery p)) eqn:E.
  - rewrite lookup_empty. split; [tauto|discriminate].
  - split; [split; discriminate|]. unfold index. rewrite lookup_empty. simpl.
    discriminate.
Qed.

(** ** The identifiers of the index *)

Lemma identifier_parts parentID suffix :
  identifier parentID suffix
  = "example-" +:+ match suffix with
                   | EmptyString => parentPart parentID
                   | String _ _ => parentPart parentID +:+ "-" +:+ suffix
                   end.
Proof. destruct parentID, suffix; reflexivity. Qed.

Lemma indexed_wellIdentified id l : Forall wellIdentified (map (indexed id) l).
Proof. induction l as [|e l IH]; constructor; [split; reflexivity|exact IH]. Qed.

Lemma ofFunc_wellIdentified fs : Forall wellIdentified (flat_map ofFunc fs).
Proof. apply Forall_flat_map, Forall_forall. intros f _. apply indexed_wellIdentified. Qed.

Lemma discovery_wellIdentified p : Forall wellIdentified (discovery p).
Proof.
  unfold discovery. rewrite !Forall_app.
  split; [apply indexed_wellIdentified|]. split; [apply ofFunc_wellIdentified|].
  apply Forall_flat_map, Forall_forall. intros t _. unfold ofType.
  rewrite !Forall_app.
  split; [apply indexed_wellIdentified|]. split; [apply ofFunc_wellIdentified|].
  apply Forall_flat_map, Forall_forall. intros m _. apply indexed_wellIdentified.
Qed.

(** X2: every example of the index carries the suffix of the example it
    wraps and the identifier made of its parent and that suffix, and the
    identifier starts with ["example-"]: the anchors of the examples differ
    from the anchors [pkg-...] of the page. *)
Theorem collectExamples_identifiers :
  ∀ p, ∃ exs,
    collectExamples p = Return exs
    ∧ Forall (fun ex =>
        example.Suffix ex = doc.Example.Suffix (example.Example ex)
        ∧ exampleID (example.ParentID ex) (example.Suffix ex) = Return (example.ID ex)
        ∧ ∃ rest, example.ID ex = "example-" +:+ rest)
      (examples.List exs).
Proof.
  intros p. eexists. split; [apply collectExamples_sorted|]. simpl.
  rewrite (SliceStable_perm example.ParentID).
  eapply Forall_impl; [apply discovery_wellIdentified|].
  intros ex [HI HS]. split; [exact HS|].
  split; [rewrite exampleID_identifier, HI; reflexivity|].
  rewrite HI, identifier_parts. eexists. reflexivity.
Qed.

(** ** Identifiers do not collide *)

Lemma append_inj_l (a x y : string) : a +:+ x = a +:+ y → x = y.
Proof.
  induction a as [|c a IH]; intros H; [exact H|].
  rewrite !append_cons in H. injection H as H. apply IH, H.
Qed.

Lemma dashFree_dash a y : dashFree (a +:+ "-" +:+ y) = false.
Proof.
  induction a as [|c a IH]; [reflexivity|].
  rewrite append_cons. simpl. rewrite IH. apply andb_false_r.
Qed.

Lemma split_dash a b x y :
  dashFree a = true → dashFree b = true →
  a +:+ "-" +:+ x = b +:+ "-" +:+ y → a = b ∧ x = y.
Proof.
  revert b; induction a as [|c a IH]; intros [|d b] Ha Hb H.
  - injection H as H. split; [reflexivity|exact H].
  - rewrite append_cons in H. injection H as Hc _. subst d. discriminate Hb.
  - rewrite append_cons in H. injection H as Hc _. subst c. discriminate Ha.
  - rewrite !append_cons in H. injection H as Hc H. subst d.
    simpl in Ha, Hb. apply andb_true_iff in Ha as [_ Ha].
    apply andb_true_iff in Hb as [_ Hb].
    destruct (IH b Ha Hb H) as [-> ->]. split; reflexivity.
Qed.

Lemma parentPart_dashFree p : dashFree p = true → dashFree (parentPart p) = true.
Proof. destruct p; [reflexivity|]. intros H. exact H. Qed.

Lemma parentPart_inj p1 p2 :
  p1 ≠ "package" → p2 ≠ "package" → parentPart p1 = parentPart p2 → p1 = p2.
Proof. destruct p1, p2; simpl; intros N1 N2 H; congruence. Qed.

Lemma identifier_inj p1 s1 p2 s2 :
  dashFree p1 = true → dashFree p2 = true →
  p1 ≠ "package" → p2 ≠ "package" →
  identifier p1 s1 = identifier p2 s2 → p1 = p2 ∧ s1 = s2.
Proof.
  intros D1 D2 N1 N2 H. rewrite !identifier_parts in H.
  apply append_inj_l in H.
  apply parentPart_dashFree in D1, D2.
  destruct s1 as [|c1 s1], s2 as [|c2 s2].
  - split; [apply parentPart_inj; assumption|reflexivity].
  - rewrite H, dashFree_dash in D1. discriminate.
  - rewrite <- H, dashFree_dash in D2. discriminate.
  - destruct (split_dash _ _ _ _ D1 D2 H) as [HP HS].
    split; [apply parentPart_inj; assumption|exact HS].
Qed.

(** X3: [exampleID] gives different identifiers to different pairs of a
    parent and a suffix, for parents that hold no ['-'] and are not the word
    [package], as the names of Go are. *)
Theorem exampleID_injective p1 s1 p2 s2 :
  dashFree p1 = true → dashFree p2 = true →
  p1 ≠ "package" → p2 ≠ "package" →
  exampleID p1 s1 = exampleID p2 s2 →
  p1 = p2 ∧ s1 = s2.
Proof.
  intros D1 D2 N1 N2 H. rewrite !exampleID_identifier in H.
  injection H as H. apply identifier_inj; assumption.
Qed.

(** The witness of X3: the method [Ring.Do] with the suffix [twice]. *)
Lemma exampleID_injective_witness :
  "Ring.Do" = "Ring.Do" ∧ "twice" = "twice".
Proof.
  apply (exampleID_injective "Ring.Do" "twice" "Ring.Do" "twice");
    first [reflexivity | discriminate].
Defined.

(** Without the condition two pairs collide: a parent named [package]
    without suffix and the package itself. *)
Example exampleID_collision : exampleID "package" "" = exampleID "" "".
Proof. reflexivity. Qed.

(** X4: when the parents found in a package hold no ['-'] and are not the
    word [package], and no two examples have the same parent and suffix, the
    identifiers of the index are pairwise different: every anchor of an
    example is unique in the page. *)
Theorem collectExamples_unique_identifiers p :
  Forall (fun ex => dashFree (example.ParentID ex) = true
                    ∧ example.ParentID ex ≠ "package") (discovery p) →
  NoDup (map parentAndSuffix (discovery p)) →
  ∃ exs,
    collectExamples p = Return exs
    ∧ NoDup (map example.ID (examples.List exs)).
Proof.
  intros HF HN. eexists. split; [apply collectExamples_sorted|]. simpl.
  rewrite (SliceStable_perm example.ParentID).
  assert (map example.ID (discovery p)
          = map (fun ps => identifier ps.1 ps.2) (map parentAndSuffix (discovery p)))
    as ->.
  { rewrite map_map. apply map_ext_Forall.
    eapply Forall_impl; [apply discovery_wellIdentified|].
    intros ex [HI _]. exact HI. }
  apply (NoDup_fmap_2_strong (fun ps : string * string => identifier ps.1 ps.2));
    [|exact HN].
  intros [q1 t1] [q2 t2] H1 H2 E. simpl in E.
  apply list_elem_of_In, in_map_iff in H1 as (e1 & E1 & I1).
  apply list_elem_of_In, in_map_iff in H2 as (e2 & E2 & I2).
  rewrite List.Forall_forall in HF.
  destruct (HF e1 I1) as [D1 N1], (HF e2 I2) as [D2 N2].
  injection E1 as <- <-. injection E2 as <- <-.
  destruct (identifier_inj _ _ _ _ D1 D2 N1 N2 E) as [-> ->]. reflexivity.
Qed.

(** The witness of X4: the package [sample.ring]. *)
Lemma collectExamples_unique_identifiers_witness :
  ∃ exs,
    collectExamples sample.ring = Return exs
    ∧ NoDup (map example.ID (examples.List exs)).
Proof.
  apply (collectExamples_unique_identifiers sample.ring).
  - repeat constructor; discriminate.
  - apply NoDup_ListNoDup. repeat constructor; simpl; intros H; 
      repeat (destruct H as [H|H]; [discriminate H|]); exact H.
Defined.

(** ** The order of the list *)

Lemma string_le_empty s : string_le s "" → s = "".
Proof. destruct s; [reflexivity|]. intros H. discriminate H. Qed.

Lemma keyed_indexed id l :
  keyed example.ParentID id (map (indexed id) l) = map (indexed id) l.
Proof.
  unfold keyed. induction l as [|e l IH]; [reflexivity|].
  simpl. rewrite filter_cons_True by reflexivity. rewrite IH. reflexivity.
Qed.

(** A sorted slice starts with the elements of the empty key. *)
Lemma sorted_empty_key_first {A : Type} (key : A → string) l :
  StronglySorted (ordered key) l →
  l = keyed key "" l ++ filter (fun a => key a ≠ "") l.
Proof.
  unfold keyed. induction 1 as [|a l S IH F]; [reflexivity|].
  rewrite !filter_cons. destruct (decide (key a = "")) as [E|N].
  - destruct (decide (key a ≠ "")) as [N|_]; [contradiction|].
    simpl. rewrite <- IH. reflexivity.
  - destruct (decide (key a ≠ "")) as [_|NN]; [|contradiction].
    assert (Forall (fun x => key x ≠ "") l) as G.
    { eapply Forall_impl; [exact F|]. intros x Hx Ex. apply N.
      unfold ordered in Hx. rewrite Ex in Hx. apply string_le_empty, Hx. }
    clear IH.
    assert (filter (fun x => key x = "") l = []) as ->.
    { clear -G. induction G as [|x l Hx G IH]; [reflexivity|].
      rewrite filter_cons_False by exact Hx. exact IH. }
    simpl. f_equal. clear -G. induction G as [|x l Hx G IH]; [reflexivity|].
    rewrite filter_cons_True by exact Hx. f_equal. exact IH.
Qed.

(** X5: the list of the index starts with the examples of the package, in
    the order of the source, then those of declarations whose name is empty,
    if any; the examples that follow all have a parent. *)
Theorem collectExamples_package_first :
  ∀ p, ∃ exs unnamed rest,
    collectExamples p = Return exs
    ∧ examples.List exs
      = map (indexed "") (doc.Package.Examples p) ++ unnamed ++ rest
    ∧ Forall (fun ex => example.ParentID ex = "") unnamed
    ∧ Forall (fun ex => example.ParentID ex ≠ "") rest.
Proof.
  intros p. eexists. do 2 eexists. split; [apply collectExamples_sorted|]. simpl.
  split.
  - rewrite (sorted_empty_key_first example.ParentID
               (sort.SliceStable lessParentID (discovery p)))
      by apply (SliceStable_sorted example.ParentID).
    rewrite (SliceStable_keyed example.ParentID).
    unfold discovery, keyed at 1. rewrite filter_app.
    fold (keyed example.ParentID "" (map (indexed "") (doc.Package.Examples p))).
    rewrite keyed_indexed, <- app_assoc. reflexivity.
  - split.
    + apply Forall_forall. intros ex H. apply list_elem_of_filter in H. tauto.
    + apply Forall_forall. intros ex H. apply list_elem_of_filter in H. tauto.
Qed.

(** X6: when the discovery order already ascends by parent, the list of
    the index is the discovery order itself. *)
Theorem collectExamples_sorted_discovery p :
  StronglySorted (ordered example.ParentID) (discovery p) →
  ∃ exs,
    collectExamples p = Return exs
    ∧ examples.List exs = discovery p.
Proof.
  intros S. eexists. split; [apply collectExamples_sorted|]. simpl.
  symmetry. apply (SliceStable_unique example.ParentID); [exact S|].
  intros k. reflexivity.
Qed.

(** The witness of X6: the package [sample.ring], found in the order [""],
    [New], [Ring.Do]. *)
Lemma collectExamples_sorted_discovery_witness :
  ∃ exs,
    collectExamples sample.ring = Return exs
    ∧ examples.List exs = discovery sample.ring.
Proof.
  apply (collectExamples_sorted_discovery sample.ring).
  repeat constructor; reflexivity.
Defined.

(** ** Libraries *)

(** X7: for a package that is not named [main], [Render] makes no copy: it
    leaves the heap as it was, and the page is the one of the package the
    caller passed, with its own index. *)
Theorem Render_library env fset p opt (h : heap) v :
  h !! p = Some v →
  doc.Package.Name v ≠ "main" →
  ∃ res,
    Render env fset p opt h = Return (res, h)
    ∧ res = (let s := Execute (page env fset (withDefault opt) v) (emptyBuffer opt) in
             outcomeOf s.1 s.2).
Proof.
  intros H N. eexists. rewrite (Render_eq _ _ _ _ _ _ H).
  unfold heapAfter, rendered.
  destruct (String.eqb_spec (doc.Package.Name v) "main") as [E|_]; [contradiction|].
  split; reflexivity.
Qed.

(** The witness of X7: the library [sample.ring]. *)
Lemma Render_library_witness :
  ∃ res,
    Render sample.env 1%positive 1%positive (sample.options 0)
           (sample.heapOf sample.ring) = Return (res, sample.heapOf sample.ring)
    ∧ res = (let s := Execute (page sample.env 1%positive
                                 (withDefault (sample.options 0)) sample.ring)
                              (emptyBuffer (sample.options 0)) in
             outcomeOf s.1 s.2).
Proof.
  apply (Render_library sample.env 1%positive 1%positive (sample.options 0)
           (sample.heapOf sample.ring) sample.ring);
    first [reflexivity | discriminate].
Defined.

(** ** Hooks that return *)

Lemma succeeds_text s : succeeds (text s).
Proof. reflexivity. Qed.

Lemma succeeds_nothing : succeeds nothing.
Proof. reflexivity. Qed.

Lemma succeeds_seq f g : succeeds f → succeeds g → succeeds (f >>> g).
Proof.
  destruct f as [o [e|]]; unfold succeeds; simpl; [discriminate|].
  intros _ H. exact H.
Qed.

Lemma succeeds_if c f : succeeds f → succeeds (if_ c f).
Proof. destruct c; [tauto|]. intros _. reflexivity. Qed.

Lemma succeeds_range {A : Type} (l : list A) body :
  (∀ x, succeeds (body x)) → succeeds (range l body).
Proof.
  intros H. induction l as [|x l IH]; [reflexivity|].
  simpl. apply succeeds_seq; [apply H|exact IH].
Qed.

Lemma succeeds_rangeMap {V : Type} (m : gmap string V) body :
  (∀ k x, succeeds (body k x)) → succeeds (rangeMap m body).
Proof. intros H. apply succeeds_range. intros kv. apply H. Qed.

Lemma succeeds_emit c : (∃ s, c = inr s) → succeeds (emit c).
Proof. intros [s ->]. reflexivity. Qed.

Lemma succeeds_assign {A : Type} (c : called A) k :
  (∃ a, c = inr a) → (∀ a, succeeds (k a)) → succeeds (assign c k).
Proof. intros [a ->] H. apply H. Qed.

Lemma sourceLink_returns opt name :
  returns (RenderOptions.SourceLinkFunc opt) → returns (sourceLink opt name).
Proof.
  intros H node. unfold sourceLink. destruct (H node) as [link ->].
  destruct (String.eqb link ""); eexists; reflexivity.
Qed.

Section HooksReturn.
Variable esc : template.Escapers.
Variable r : render.Renderer.
Variable source_link : string → ast.Node → called string.
Hypothesis Hr : hooksReturn r.
Hypothesis Hlink : ∀ name, returns (source_link name).

Ltac walk :=
  repeat first
    [ apply succeeds_seq | apply succeeds_text | apply succeeds_nothing
    | apply succeeds_if | apply succeeds_range; intros
    | apply succeeds_rangeMap; intros
    | apply succeeds_emit | apply succeeds_assign; [|intros]
    | apply Hlink | apply (proj1 Hr) | apply (proj1 (proj2 Hr))
    | apply (proj1 (proj2 (proj2 Hr))) | apply (proj2 (proj2 (proj2 Hr))) ].

Lemma succeeds_templateExample l : succeeds (templateExample esc r l).
Proof. unfold templateExample, withSuffix, html, attr, href. walk. Qed.

Lemma succeeds_declaration doc decl : succeeds (declaration esc r doc decl).
Proof. unfold declaration, html. walk. Qed.

Lemma succeeds_values l : succeeds (values esc r l).
Proof. unfold values. walk; apply succeeds_declaration. Qed.

Lemma succeeds_heading kind anchor name decl :
  succeeds kind → succeeds (heading esc source_link kind anchor name decl).
Proof. intros H. unfold heading, html, attr, href. walk; exact H. Qed.

Lemma succeeds_function exs f : succeeds (function esc r source_link exs f).
Proof.
  unfold function. walk;
    first [apply succeeds_heading; walk | apply succeeds_declaration
          | apply succeeds_templateExample].
Qed.

Lemma succeeds_method exs tname m : succeeds (method esc r source_link exs tname m).
Proof.
  unfold method. walk;
    first [apply succeeds_heading; unfold html; walk | apply succeeds_declaration
          | apply succeeds_templateExample].
Qed.

Lemma succeeds_htmlPackage d : succeeds (htmlPackage esc r source_link d).
Proof.
  unfold htmlPackage, navigation, overview, indexSection, indexList, indexEntry,
    examplesList, bodies, notes, withSuffix, html, attr, href.
  walk;
    first [ apply succeeds_templateExample | apply succeeds_values
          | apply succeeds_function | apply succeeds_method
          | apply succeeds_declaration
          | apply succeeds_heading; walk ].
Qed.
End HooksReturn.

(** X8: when no hook fails, the template ends without an error: [Render]
    returns the bytes of the page, or fails with the oversized output, and
    never with the rendering failure. *)
Theorem Render_hooks_return env fset p opt (h : heap) v :
  h !! p = Some v →
  hooksReturn (Env.render_New env fset (rendered v)) →
  returns (RenderOptions.SourceLinkFunc opt) →
  ∃ buf res h',
    assembled env fset p opt h = Return (buf, None)
    ∧ Render env fset p opt h = Return (res, h')
    ∧ (res = (limitBuffer.B buf, None)
       ∨ res = ("", Some (xerrors.Errorf_w "dochtml.Render: " ErrTooLarge))).
Proof.
  intros H Hr Hl.
  assert (succeeds (page env fset (withDefault opt) (rendered v))) as S.
  { unfold page. apply succeeds_htmlPackage; [exact Hr|].
    intros name. apply sourceLink_returns.
    unfold withDefault. destruct (RenderOptions.Limit opt =? 0); exact Hl. }
  do 3 eexists. split; [|split].
  - rewrite (assembled_eq _ _ _ _ _ _ H). unfold Execute. rewrite S. reflexivity.
  - apply (Render_eq _ _ _ _ _ _ H).
  - cbv zeta. unfold Execute. rewrite S. simpl. unfold outcomeOf. simpl.
    destruct (limitBuffer.Remain _ <? 0); [right|left]; reflexivity.
Qed.

(** The witness of X8: the hooks of [sample.env] on [sample.ring]. *)
Lemma Render_hooks_return_witness :
  ∃ buf res h',
    assembled sample.env 1%positive 1%positive (sample.options 0)
              (sample.heapOf sample.ring) = Return (buf, None)
    ∧ Render sample.env 1%positive 1%positive (sample.options 0)
             (sample.heapOf sample.ring) = Return (res, h')
    ∧ (res = (limitBuffer.B buf, None)
       ∨ res = ("", Some (xerrors.Errorf_w "dochtml.Render: " ErrTooLarge))).
Proof.
  apply (Render_hooks_return sample.env 1%positive 1%positive (sample.options 0)
           (sample.heapOf sample.ring) sample.ring).
  - reflexivity.
  - repeat split; intros a; eexists; reflexivity.
  - intros a. eexists. reflexivity.
Defined.

(** ** The bytes returned *)

Lemma ceiling_nonnegative opt :
  0 ≤ RenderOptions.Limit opt → 0 ≤ ceiling opt.
Proof. unfold ceiling. destruct (RenderOptions.Limit opt =? 0); lia. Qed.

Lemma ceiling_bound opt :
  RenderOptions.Limit opt < 2 ^ 63 → ceiling opt < 2 ^ 63.
Proof. unfold ceiling. destruct (RenderOptions.Limit opt =? 0); lia. Qed.

(** X9: for a limit that is not negative, the bytes [Render] returns
    without an error are all the bytes of the page, and they are never more
    than the limit, or than 10,000,000 when the limit is zero. *)
Theorem Render_within_limit env fset p opt (h h' : heap) v out :
  h !! p = Some v →
  0 ≤ RenderOptions.Limit opt < 2 ^ 63 →
  Z.of_nat (String.length out) < 2 ^ 63 →
  Render env fset p opt h = Return (out, None, h') →
  out = bytesOf (page env fset (withDefault opt) (rendered v)).1
  ∧ (page env fset (withDefault opt) (rendered v)).2 = None
  ∧ Z.of_nat (String.length out) ≤ ceiling opt.
Proof.
  intros H [Hlo Hhi] Hn R. rewrite (Render_eq _ _ _ _ _ _ H) in R.
  pose proof (Execute_sink (page env fset (withDefault opt) (rendered v)) opt) as HS.
  cbv zeta in HS, R.
  assert ((Execute (page env fset (withDefault opt) (rendered v)) (emptyBuffer opt)).2
          = (page env fset (withDefault opt) (rendered v)).2) as HE by reflexivity.
  destruct (Execute (page env fset (withDefault opt) (rendered v)) (emptyBuffer opt))
    as [buf err].
  simpl in HS, HE, R. destruct HS as [HB HR]. subst err.
  injection R as R _. unfold outcomeOf in R.
  destruct (Z.ltb_spec (limitBuffer.Remain buf) 0) as [|Hrem]; [discriminate R|].
  destruct (page env fset (withDefault opt) (rendered v)).2; [discriminate R|].
  injection R as R. rewrite R in HB, HR.
  split; [exact HB|]. split; [reflexivity|].
  rewrite HR in Hrem.
  - lia.
  - apply ceiling_bound, Hhi.
  - pose proof (ceiling_nonnegative opt Hlo). lia.
Qed.

(** The witness of X9: the page of [sample.ring] under the default limit. *)
Lemma Render_within_limit_witness :
  ∃ out,
    out = bytesOf (page sample.env 1%positive (withDefault (sample.options 0))
                        (rendered sample.ring)).1
    ∧ (page sample.env 1%positive (withDefault (sample.options 0))
            (rendered sample.ring)).2 = None
    ∧ Z.of_nat (String.length out) ≤ ceiling (sample.options 0).
Proof.
  eexists.
  eapply (Render_within_limit sample.env 1%positive 1%positive (sample.options 0)
            (sample.heapOf sample.ring) _ sample.ring).
  - reflexivity.
  - vm_compute. split; [discriminate|reflexivity].
  - shelve.
  - vm_compute. reflexivity.
  Unshelve. vm_compute. reflexivity.
Defined.

(** ** The empty page *)

Lemma blank_page env fset opt v :
  blank v →
  page env fset opt v = html (Env.escapers env) "".
Proof.
  destruct v as [d n i ns cs ts vs fs es].
  intros (Hd & Hn & Hc & Hv & Hf & Ht & He). simpl in *. subst.
  unfold page, htmlPackage, navigation, overview, indexSection, notes, rangeMap.
  simpl. rewrite map_to_list_empty. reflexivity.
Qed.

(** X10: a package without overview, declarations, examples and notes, and
    so also a command without overview and notes, gives the empty page:
    [Render] returns no bytes and no error, unless the limit is negative,
    when even the empty page fails with the oversized output. *)
Theorem Render_blank env fset p opt (h : heap) v :
  h !! p = Some v →
  blank (rendered v) →
  template.htmlescaper (Env.escapers env) "" = "" →
  - 2 ^ 63 ≤ RenderOptions.Limit opt < 2 ^ 63 →
  ∃ h',
    Render env fset p opt h
    = Return (if RenderOptions.Limit opt <? 0
              then ("", Some (xerrors.Errorf_w "dochtml.Render: " ErrTooLarge))
              else ("", None), h').
Proof.
  intros H B E L. eexists. rewrite (Render_eq _ _ _ _ _ _ H).
  rewrite (blank_page _ _ _ _ B). unfold html. rewrite E.
  unfold Execute, emptyBuffer, outcomeOf. simpl.
  rewrite Z.sub_0_r.
  assert (RenderOptions.Limit (withDefault opt)
          = if RenderOptions.Limit opt =? 0 then 10000000
            else RenderOptions.Limit opt) as ->.
  { unfold withDefault. destruct (RenderOptions.Limit opt =? 0); reflexivity. }
  destruct (Z.eqb_spec (RenderOptions.Limit opt) 0) as [Z0|NZ].
  - rewrite Z0. reflexivity.
  - rewrite int64_small by lia. reflexivity.
Qed.

(** The witness of X10: [bareCommand] under the limit [-1]. *)
Lemma Render_blank_witness :
  ∃ h',
    Render sample.env 1%positive 1%positive (sample.options (-1))
           (sample.heapOf bareCommand)
    = Return ("", Some (xerrors.Errorf_w "dochtml.Render: " ErrTooLarge), h').
Proof.
  apply (Render_blank sample.env 1%positive 1%positive (sample.options (-1))
           (sample.heapOf bareCommand) bareCommand).
  - reflexivity.
  - repeat split.
  - reflexivity.
  - vm_compute. split; [discriminate|reflexivity].
Defined.
